(** * FreeNOS filesystem server core: srv/filesystem/FileSystem.h

    A shallow embedding of the [FileSystem] class: the [FileCache] tree, the
    path index ([HashTable<String, FileCache>]), the three request handlers
    and [clearFileCache].  Objects allocated with [new] live in an explicit
    heap addressed by [Address]; a pointer is an [option Address] ([None] is
    ZERO) and dereferencing an address that holds no object makes the
    operation fault ([None] in the option monad). *)

From Stdlib Require Import ZArith Lia.
From stdpp Require Import gmap strings list fin_maps.

Local Open Scope Z_scope.
Set Warnings "-register-all".

(** ** Constants and plain data *)

(** [#define PATHLEN 64] *)
Definition PATHLEN : nat := 64%nat.

(** [sizeof(buf)] of [u8 buf[1024]] in [readFileHandler]. *)
Definition READ_BUFSIZE : Z := 1024.

Abbreviation Address := N.
Abbreviation ProcessID := Z.

(** The request kinds named by the constructor and by the interface table. *)
Inductive FileSystemAction := OpenFile | ReadFile | CloseFile | Mount.

Global Instance FileSystemAction_eq_dec : EqDecision FileSystemAction.
Proof. solve_decision. Defined.

(** The member functions that can be registered as IPC handlers. *)
Inductive IPCHandler := openFileHandler_fn | readFileHandler_fn | closeFileHandler_fn.

(** [FileSystemPath]: what [parse] leaves behind, read through [full()] and
    [parent()] (a null [String *] is [None]). *)
Module FileSystemPath.
Record t := mk { full : string; parent : option string }.
End FileSystemPath.

(** [File]: the only member the core calls is
    [read(buffer, size, offset)]; it yields the [Error] result and the bytes
    it stored in the buffer. *)
Module File.
Record t := mk { read : Z -> Z -> Z * list Byte.byte }.
End File.

(** [struct FileCache]. *)
Record FileCache := mkFileCache {
  file : option File.t;
  path : option FileSystemPath.t;
  parent : option Address;
  childs : list Address;
  count : Z
}.

(** The fields of [FileSystemMessage] the handlers read or write. *)
Record FileSystemMessage := mkMsg {
  action : FileSystemAction;
  from : ProcessID;
  procID : ProcessID;
  buffer : Z;
  ident : Address;
  size : Z;
  offset : Z;
  result : Z
}.

Definition set_result (r : Z) (m : FileSystemMessage) : FileSystemMessage :=
  mkMsg (action m) (from m) (procID m) (buffer m) (ident m) (size m) (offset m) r.
Definition set_ident (a : Address) (m : FileSystemMessage) : FileSystemMessage :=
  mkMsg (action m) (from m) (procID m) (buffer m) a (size m) (offset m) (result m).
Definition set_size (s : Z) (m : FileSystemMessage) : FileSystemMessage :=
  mkMsg (action m) (from m) (procID m) (buffer m) (ident m) s (offset m) (result m).

(** ** What the headers outside this directory supply

    [Types.h], [Error.h], [FileSystemPath.h], [VMCopy.h] and the concrete
    filesystems are not part of this directory; what the core takes from
    them is a parameter of the development. *)
Record Platform := mkPlatform {
  (** width of the unsigned type [Size] *)
  Size_bits : Z;
  (** an unsigned integer type of C has at least 16 bits *)
  Size_bits_wide : 16 <= Size_bits;
  (** the result codes of [Error.h] *)
  ESUCCESS : Z;
  EACCESS : Z;
  ENOSUCH : Z;
  (** [FileSystemPath::parse] on the memory a [char *] points to, from
      there on; where it stops reading is the parser's business *)
  parse : string -> FileSystemPath.t;
  (** [VMCopy(proc, Read, local, remote, len)]: the return value and the
      bytes that arrived in the local buffer *)
  VMCopy_Read : ProcessID -> Z -> nat -> Z * string;
  (** what the server's stack holds behind the bytes such a copy has stored
      in [char buf[PATHLEN]] of [openFileHandler]: the rest of the buffer,
      which nothing initialises, and the memory that follows it *)
  behind_buf : ProcessID -> Z -> string;
  (** the backing store of a concrete filesystem: the file behind a path,
      if there is one *)
  loadEntry : FileSystemPath.t -> option File.t
}.

(** [class FileSystem], with the heap its pointers point into.  The index
    [cache] is a finite map: [cache[k]] is ZERO where nothing was inserted
    under [k], and [insert] sets the pointer kept under a key.  The last
    four fields are bookkeeping of the model: the allocation frontier, and
    three logs (paths handed to the backing store, entries deleted, and
    [VMCopy] writes into client memory). *)
Record FileSystem := mkFS {
  ipcHandlers : list (FileSystemAction * IPCHandler);
  root : Address;
  cache : gmap string Address;
  memory : gmap Address FileCache;
  brk : Address;
  looked_up : list FileSystemPath.t;
  released : list Address;
  copied_out : list (ProcessID * Z * list Byte.byte)
}.

Definition set_memory (h : gmap Address FileCache) (fs : FileSystem) : FileSystem :=
  mkFS (ipcHandlers fs) (root fs) (cache fs) h (brk fs)
       (looked_up fs) (released fs) (copied_out fs).

Definition set_cache (ix : gmap string Address) (fs : FileSystem) : FileSystem :=
  mkFS (ipcHandlers fs) (root fs) ix (memory fs) (brk fs)
       (looked_up fs) (released fs) (copied_out fs).

Definition set_count (n : Z) (e : FileCache) : FileCache :=
  mkFileCache (file e) (path e) (parent e) (childs e) n.

Definition set_childs (l : list Address) (e : FileCache) : FileCache :=
  mkFileCache (file e) (path e) (parent e) l (count e).

(** ** Arithmetic of [Size] *)

Definition Size_modulus (P : Platform) : Z := 2 ^ Size_bits P.
Definition Size_max (P : Platform) : Z := Size_modulus P - 1.

(** [n++] and [n--] on a [Size]. *)
Definition Size_incr (P : Platform) (n : Z) : Z := (n + 1) mod Size_modulus P.
Definition Size_decr (P : Platform) (n : Z) : Z := (n - 1) mod Size_modulus P.

(** ** Heap primitives *)

(** Modelled from the spec: [operator new] is not in this directory, and the
    constructor [FileCache(File *f, FileSystemPath *p)] initialises [file],
    [path] and [parent] only.  The counts the specification gives (the root
    starts at 1 after one increment, a first open leaves 1) are those of an
    allocator that hands out zero-filled memory, so a new entry has
    [count = 0]; its [childs] list is default-constructed, hence empty. *)
Definition new_FileCache (f : option File.t) (p : option FileSystemPath.t) : FileCache :=
  mkFileCache f p None [] 0.

(** [new]: the object is placed at the allocation frontier. *)
Definition alloc (e : FileCache) (fs : FileSystem) : FileSystem * Address :=
  (mkFS (ipcHandlers fs) (root fs) (cache fs) (<[brk fs := e]> (memory fs))
        (brk fs + 1)%N (looked_up fs) (released fs) (copied_out fs),
   brk fs).

(** [delete cache->path; delete cache->file; delete cache;] *)
Definition free (a : Address) (fs : FileSystem) : FileSystem :=
  mkFS (ipcHandlers fs) (root fs) (cache fs) (delete a (memory fs)) (brk fs)
       (looked_up fs) (released fs ++ [a]) (copied_out fs).

(** [p->field = v] through a pointer that must hold an object. *)
Definition update (a : Address) (f : FileCache -> FileCache) (fs : FileSystem)
  : option FileSystem :=
  e ← memory fs !! a;
  Some (set_memory (<[a := f e]> (memory fs)) fs).

(** A loop body run over the elements of a list, threading the state and
    stopping at the first fault. *)
Fixpoint forEach {S A : Type} (body : S -> A -> option S) (s : S) (l : list A)
  : option S :=
  match l with
  | [] => Some s
  | x :: l' => s' ← body s x; forEach body s' l'
  end.

(** The first [n] characters of a text: what fits a buffer of [n] bytes. *)
Fixpoint str_take (n : nat) (s : string) : string :=
  match n, s with
  | O, _ => EmptyString
  | S _, EmptyString => EmptyString
  | S n', String c s' => String c (str_take n' s')
  end.

(** ** The constructor *)

(** [addIPCHandler(slot, h)]: the slot of the handler table is set. *)
Definition addIPCHandler (a : FileSystemAction) (h : IPCHandler) (fs : FileSystem)
  : FileSystem :=
  mkFS ((a, h) :: ipcHandlers fs) (root fs) (cache fs) (memory fs) (brk fs)
       (looked_up fs) (released fs) (copied_out fs).

Definition set_root (r : Address) (fs : FileSystem) : FileSystem :=
  mkFS (ipcHandlers fs) r (cache fs) (memory fs) (brk fs)
       (looked_up fs) (released fs) (copied_out fs).

(** [FileSystem::FileSystem(path)].  The two handlers are registered, the
    mount request goes to the VFS server (it touches nothing of this
    object), and the dummy root is created and held once.  Address 0 is
    ZERO, so allocation starts at 1. *)
Definition FileSystem_new (P : Platform) : FileSystem :=
  let fs := mkFS [] 0%N ∅ ∅ 1%N [] [] [] in
  let fs := addIPCHandler OpenFile openFileHandler_fn fs in
  let fs := addIPCHandler ReadFile readFileHandler_fn fs in
  let '(fs, r) := alloc (new_FileCache None None) fs in
  let fs := set_root r fs in
  (* root->count++ on the object just allocated *)
  set_memory (alter (fun e => set_count (Size_incr P (count e)) e) r (memory fs)) fs.

(** ** Lookup, insertion and the open handler *)

(** [cacheHit]: the default hook hands the pointer back. *)
Definition cacheHit (c : option Address) : option Address := c.

(** [findFileCache(FileSystemPath *p)] *)
Definition findFileCache (fs : FileSystem) (p : FileSystemPath.t) : option Address :=
  let c := cache fs !! FileSystemPath.full p in
  cacheHit c.

(** The parent [insertFileCache] selects for a path: the cached entry of the
    parent path when there is one, the root otherwise. *)
Definition parent_of (fs : FileSystem) (p : FileSystemPath.t) : Address :=
  match FileSystemPath.parent p with
  | Some pp =>
      match cache fs !! pp with
      | Some a => a
      | None => root fs
      end
  | None => root fs
  end.

Definition set_parent (a : option Address) (e : FileCache) : FileCache :=
  mkFileCache (file e) (path e) a (childs e) (count e).

(** The body of [insertFileCache] below the formatting of the path: select
    the parent, create the entry, enter it in the index and append it to the
    parent's children. *)
Definition attach (fs : FileSystem) (f : File.t) (p : FileSystemPath.t)
  : option (FileSystem * Address) :=
  let parent := parent_of fs p in
  let '(fs, entry) := alloc (new_FileCache (Some f) (Some p)) fs in
  fs ← update entry (set_parent (Some parent)) fs;
  let fs := set_cache (<[FileSystemPath.full p := entry]> (cache fs)) fs in
  fs ← update parent (fun e => set_childs (childs e ++ [entry]) e) fs;
  Some (fs, entry).

(** [insertFileCache(file, pathFormat, ...)]; [formatted] is the text the
    format and its arguments produce, of which [vsnprintf(path, sizeof(path),
    ...)] keeps what fits [char path[PATHLEN]] with its terminator. *)
Definition insertFileCache (P : Platform) (fs : FileSystem) (f : File.t)
    (formatted : string) : option (FileSystem * Address) :=
  let path := str_take (PATHLEN - 1) formatted in
  let p := parse P path in
  attach fs f p.

Definition log_lookup (p : FileSystemPath.t) (fs : FileSystem) : FileSystem :=
  mkFS (ipcHandlers fs) (root fs) (cache fs) (memory fs) (brk fs)
       (looked_up fs ++ [p]) (released fs) (copied_out fs).

(** Modelled from the spec: [lookupFile] is virtual, its default returns
    ZERO and the overriding filesystems are not in this directory.  By
    section 4.2, step 4, the miss handler asks the backing store for the
    parsed path; without an entry it returns none, with one the entry is
    inserted into the tree and the index (under the cached entry of the
    parent path, or under the root) and returned. *)
Definition lookupFile (P : Platform) (fs : FileSystem) (p : FileSystemPath.t)
  : option (FileSystem * option Address) :=
  let fs := log_lookup p fs in
  match loadEntry P p with
  | None => Some (fs, None)
  | Some f => '(fs, entry) ← attach fs f p; Some (fs, Some entry)
  end.

(** What [path.parse(buf)] is given in [openFileHandler]: the copy stores at
    most [PATHLEN] bytes in [char buf[PATHLEN]] and nothing terminates them,
    so the memory the parser reads from holds those bytes followed by
    whatever lies behind them. *)
Definition parse_input (P : Platform) (msg : FileSystemMessage) (data : string) : string :=
  str_take PATHLEN data ++ behind_buf P (from msg) (buffer msg).

(** [openFileHandler(msg, reply)] *)
Definition openFileHandler (P : Platform) (fs : FileSystem)
    (msg reply : FileSystemMessage) : option (FileSystem * FileSystemMessage) :=
  let '(copied, data) := VMCopy_Read P (from msg) (buffer msg) PATHLEN in
  if copied <=? 0 then Some (fs, set_result (EACCESS P) reply)
  else
    let buf := parse_input P msg data in
    let path := parse P buf in
    '(fs, found) ← match findFileCache fs path with
                   | Some entry => Some (fs, Some entry)
                   | None => lookupFile P fs path
                   end;
    match found with
    | Some entry =>
        fs ← update entry (fun e => set_count (Size_incr P (count e)) e) fs;
        Some (fs, set_ident entry (set_result (ESUCCESS P) reply))
    | None => Some (fs, set_result (ENOSUCH P) reply)
    end.

(** ** The read and close handlers *)

Definition log_copy (w : ProcessID * Z * list Byte.byte) (fs : FileSystem) : FileSystem :=
  mkFS (ipcHandlers fs) (root fs) (cache fs) (memory fs) (brk fs)
       (looked_up fs) (released fs) (copied_out fs ++ [w]).

(** [readFileHandler(msg, reply)] *)
Definition readFileHandler (P : Platform) (fs : FileSystem)
    (msg reply : FileSystemMessage) : option (FileSystem * FileSystemMessage) :=
  fc ← memory fs !! ident msg;
  f ← file fc;
  let bufSize := if READ_BUFSIZE >? size msg then size msg else READ_BUFSIZE in
  let '(result, buf) := File.read f bufSize (offset msg) in
  if result >? 0 then
    let result := if result >? bufSize then bufSize else result in
    let fs := log_copy (procID msg, buffer msg, take (Z.to_nat result) buf) fs in
    Some (fs, set_size result (set_result (ESUCCESS P) reply))
  else
    Some (fs, set_size 0 (set_result result reply)).

(** [closeFileHandler(msg, reply)] *)
Definition closeFileHandler (P : Platform) (fs : FileSystem)
    (msg reply : FileSystemMessage) : option (FileSystem * FileSystemMessage) :=
  let file := ident msg in
  fs ← update file (fun e => set_count (Size_decr P (count e)) e) fs;
  Some (fs, reply).

(** ** Dispatch *)

Definition run_handler (P : Platform) (h : IPCHandler)
  : FileSystem -> FileSystemMessage -> FileSystemMessage ->
    option (FileSystem * FileSystemMessage) :=
  match h with
  | openFileHandler_fn => openFileHandler P
  | readFileHandler_fn => readFileHandler P
  | closeFileHandler_fn => closeFileHandler P
  end.

Fixpoint handler_for (a : FileSystemAction) (t : list (FileSystemAction * IPCHandler))
  : option IPCHandler :=
  match t with
  | [] => None
  | (a', h) :: t' => if decide (a' = a) then Some h else handler_for a t'
  end.

(** Modelled from the spec: [IPCServer] is not in this directory.  By
    section 2 the transport delivers a typed request and the core dispatches
    by request kind to the handler registered for it; a request kind without
    a registered handler reaches no handler, so the server's state and the
    reply are as they were. *)
Definition dispatch (P : Platform) (fs : FileSystem) (msg reply : FileSystemMessage)
  : option (FileSystem * FileSystemMessage) :=
  match handler_for (action msg) (ipcHandlers fs) with
  | Some h => run_handler P h fs msg reply
  | None => Some (fs, reply)
  end.

(** ** Eviction *)

(** [clearFileCache(cache)].  The recursion follows pointers through the
    heap, so it is bounded by [fuel]; running out of fuel is a fault.
    Modelled from the spec: [List] and [ListIterator] are not in this
    directory; by section 4.5 every child of the entry is visited, so the
    loop runs over the children as they stand when it starts, and
    [childs.remove(cache)] takes the entry out of the list. *)
Fixpoint clearFileCache (fuel : nat) (fs : FileSystem) (start : option Address)
  : option FileSystem :=
  match fuel with
  | O => None
  | S fuel' =>
      (* Start from root? *)
      let c := match start with Some a => a | None => root fs end in
      (* Walk all our childs. *)
      e ← memory fs !! c;
      fs ← forEach (fun fs child => clearFileCache fuel' fs (Some child)) fs (childs e);
      (* May we clear this entry? *)
      e ← memory fs !! c;
      if decide (count e = 0) then
        (* Remove us from our parent. *)
        fs ← match parent e with
             | Some p => update p (fun pe => set_childs (filter (fun x => x ≠ c) (childs pe)) pe) fs
             | None => Some fs
             end;
        (* Release allocated memory. *)
        Some (free c fs)
      else Some fs
  end.

(** ** Sequences of operations *)

Inductive Request :=
| Open (msg : FileSystemMessage)
| Read (msg : FileSystemMessage)
| Close (msg : FileSystemMessage)
| Evict (start : option Address).

(** One operation that runs to completion, from state to state. *)
Inductive step (P : Platform) : FileSystem -> Request -> FileSystem -> Prop :=
| step_open fs msg reply fs' reply' :
    openFileHandler P fs msg reply = Some (fs', reply') ->
    step P fs (Open msg) fs'
| step_read fs msg reply fs' reply' :
    readFileHandler P fs msg reply = Some (fs', reply') ->
    step P fs (Read msg) fs'
| step_close fs msg reply fs' reply' :
    closeFileHandler P fs msg reply = Some (fs', reply') ->
    step P fs (Close msg) fs'
| step_evict fs start fuel fs' :
    clearFileCache fuel fs start = Some fs' ->
    step P fs (Evict start) fs'.

Inductive steps (P : Platform) : FileSystem -> list Request -> FileSystem -> Prop :=
| steps_nil fs : steps P fs [] fs
| steps_cons fs r fs' rs fs'' :
    step P fs r fs' -> steps P fs' rs fs'' -> steps P fs (r :: rs) fs''.

(** ** A concrete platform for running the model

    The values below stand in for the headers that are not in this
    directory, so that the handlers can be evaluated on concrete requests. *)

(** The text of a C string held in a buffer: the characters before the
    first NUL. *)
Fixpoint c_str (s : string) : string :=
  match s with
  | EmptyString => EmptyString
  | String c s' => if Ascii.eqb c Ascii.zero then EmptyString else String c (c_str s')
  end.

(** The text before the last ['/'] of a path, if it has one. *)
Fixpoint dir_of (s : string) : option string :=
  match s with
  | EmptyString => None
  | String c s' =>
      match dir_of s' with
      | Some d => Some (String c d)
      | None => if Ascii.eqb c (Ascii.ascii_of_nat 47) then Some EmptyString else None
      end
  end.

(** Modelled from the spec: [FileSystemPath] is not in this directory.  By
    section 4.1 a path has a full-path string and a parent-path string that
    is absent for the root; here the full path is the text of the buffer and
    the parent is the containing directory (["/"] for a top-level name). *)
Definition sample_parse (buf : string) : FileSystemPath.t :=
  let text := c_str buf in
  FileSystemPath.mk text
    (match dir_of text with
     | Some EmptyString => if String.eqb text "/" then None else Some "/"%string
     | Some d => Some d
     | None => None
     end).

(** Modelled from the spec: [VMCopy] is not in this directory.  By section 2
    the cross-space copy returns the bytes transferred or a negative error
    code; [client] gives the text stored at an address of the client (followed
    there by a NUL), or nothing where its memory cannot be read. *)
Definition sample_VMCopy (client : Z -> option string)
    (proc : ProcessID) (addr : Z) (len : nat) : Z * string :=
  match client addr with
  | Some s => (Z.of_nat len, str_take len (s ++ String Ascii.zero EmptyString))
  | None => (-1, EmptyString)
  end.

(** Modelled from the spec: the [File] subclasses are not in this directory.
    By section 3 a resource is read through
    [read(buffer, length, offset) -> bytesRead]; this one exposes a fixed
    sequence of bytes and reads as much of it as is asked for and left. *)
Definition bytes_file (content : list Byte.byte) : File.t :=
  File.mk (fun size offset =>
    let chunk := take (Z.to_nat size) (drop (Z.to_nat offset) content) in
    (Z.of_nat (length chunk), chunk)).

Fixpoint assoc_file (store : list (string * File.t)) (k : string) : option File.t :=
  match store with
  | [] => None
  | (k', f) :: store' => if String.eqb k' k then Some f else assoc_file store' k
  end.

Definition sample_bits_wide : 16 <= 32 :=
  fun H : (16 ?= 32) = Gt => eq_ind Lt (fun c => if c is Gt then False else True) I Gt H.

(** The bytes the examples find behind a path buffer: no NUL among the
    first of them. *)
Definition sample_behind : string := "#stack".

(** A 32-bit platform whose clients hold [client] and whose backing store
    holds [store]. *)
Definition sample_platform (client : Z -> option string)
    (store : list (string * File.t)) : Platform :=
  mkPlatform 32 sample_bits_wide 0 (-1) (-2) sample_parse (sample_VMCopy client)
             (fun _ _ => sample_behind)
             (fun p => assoc_file store (FileSystemPath.full p)).

(** A client process with no readable memory and an empty backing store. *)
Definition bare_platform : Platform := sample_platform (fun _ => None) [].

Definition blank (a : FileSystemAction) : FileSystemMessage :=
  mkMsg a 0 0 0 0%N 0 0 0.

Definition open_msg (addr : Z) : FileSystemMessage :=
  mkMsg OpenFile 7 7 addr 0%N 0 0 0.

Definition close_msg (id : Address) : FileSystemMessage :=
  mkMsg CloseFile 7 7 0 id 0 0 0.

Definition read_msg (id : Address) (off len : Z) : FileSystemMessage :=
  mkMsg ReadFile 7 7 4096 id len off 0.

(** The count of the entry at an address, if one is there. *)
Definition count_at (fs : FileSystem) (a : Address) : option Z :=
  count <$> memory fs !! a.

Definition childs_at (fs : FileSystem) (a : Address) : option (list Address) :=
  childs <$> memory fs !! a.

Definition parent_at (fs : FileSystem) (a : Address) : option (option Address) :=
  parent <$> memory fs !! a.

(** The full path of the entry at an address. *)
Definition full_path_at (fs : FileSystem) (a : Address) : option string :=
  e ← memory fs !! a; p ← path e; Some (FileSystemPath.full p).

(** An entry is attached to the tree when it can be reached from the root
    through [childs] lists of entries that exist. *)
Inductive attached (fs : FileSystem) : Address -> Prop :=
| attached_root : attached fs (root fs)
| attached_child p pe a :
    attached fs p -> memory fs !! p = Some pe -> a ∈ childs pe -> attached fs a.

(** What an eviction may change: an entry that is still there afterwards was
    there before with the same file, path, parent and count, and with a
    children list that lost elements at most. *)
Record same_entry (e e' : FileCache) : Prop := mk_same_entry {
  se_file : file e' = file e;
  se_path : path e' = path e;
  se_parent : parent e' = parent e;
  se_count : count e' = count e;
  se_childs : forall x, x ∈ childs e' -> x ∈ childs e
}.

Record evict_rel (fs fs' : FileSystem) : Prop := mk_evict_rel {
  er_handlers : ipcHandlers fs' = ipcHandlers fs;
  er_root : root fs' = root fs;
  er_cache : cache fs' = cache fs;
  er_brk : brk fs' = brk fs;
  er_looked : looked_up fs' = looked_up fs;
  er_copied : copied_out fs' = copied_out fs;
  er_released : exists l, released fs' = released fs ++ l;
  er_back : forall a e', memory fs' !! a = Some e' ->
            exists e, memory fs !! a = Some e /\ same_entry e e';
  er_keep : forall a e, memory fs !! a = Some e -> count e <> 0 ->
            is_Some (memory fs' !! a)
}.

(** The root as the constructor leaves it: at address [r], held once, with
    no parent, file or path, below the allocation frontier and absent from
    the index. *)
Record root_held (r : Address) (fs : FileSystem) : Prop := mk_root_held {
  rh_root : root fs = r;
  rh_entry : exists e, memory fs !! r = Some e /\ count e = 1 /\
             parent e = None /\ file e = None /\ path e = None;
  rh_brk : (r < brk fs)%N;
  rh_index : forall k a, cache fs !! k = Some a -> a <> r
}.

(** ** Running requests

    A runner for sequences of requests, used to evaluate the model; each
    handler is given a blank reply message and eviction a fixed fuel. *)
Definition exec (P : Platform) (fuel : nat) (fs : FileSystem) (r : Request)
  : option FileSystem :=
  match r with
  | Open msg => fst <$> openFileHandler P fs msg (blank OpenFile)
  | Read msg => fst <$> readFileHandler P fs msg (blank ReadFile)
  | Close msg => fst <$> closeFileHandler P fs msg (blank CloseFile)
  | Evict start => clearFileCache fuel fs start
  end.

Definition execs (P : Platform) (fuel : nat) : FileSystem -> list Request -> option FileSystem :=
  forEach (exec P fuel).

(** A name of seventy characters, longer than [PATHLEN]. *)
Definition long_path : string :=
  "/seventy/characters/make/a/path/that/does/not/fit/the/buffer/of/a/path".

(** Two thousand bytes, the byte at position [i] being [i mod 256]. *)
Definition two_thousand_bytes : list Byte.byte :=
  map (fun i => default Byte.x00 (Byte.of_nat (i mod 256))) (seq 0 2000).

(** The client of the examples: its memory holds four path names, and
    nothing can be read at any other address. *)
Definition sample_client (addr : Z) : option string :=
  if addr =? 100 then Some "/a"%string
  else if addr =? 200 then Some "/a/b"%string
  else if addr =? 300 then Some "/nowhere"%string
  else if addr =? 400 then Some long_path
  else None.

(** The backing store of the examples. *)
Definition sample_store : list (string * File.t) :=
  [("/a"%string, bytes_file []);
   ("/a/b"%string, bytes_file [Byte.x01; Byte.x02]);
   ("/big"%string, bytes_file two_thousand_bytes)].

Definition sample : Platform := sample_platform sample_client sample_store.

(** The filesystem after [insertFileCache] has cached ["/a"], and after it
    has cached ["/a/b"] as well; both entries have count 0. *)
Definition cached_a : option FileSystem :=
  fst <$> insertFileCache sample (FileSystem_new sample) (bytes_file []) "/a".

Definition cached_a_b : option FileSystem :=
  fs ← cached_a;
  fst <$> insertFileCache sample fs (bytes_file [Byte.x01; Byte.x02]) "/a/b".

(** The same clients in front of a backing store that resolves nothing, as
    the default [lookupFile] does. *)
Definition sample_no_store : Platform := sample_platform sample_client [].


(** A platform on which the memory behind a path buffer holds [behind]. *)
Definition with_behind_buf (P : Platform) (behind : string) : Platform :=
  mkPlatform (Size_bits P) (Size_bits_wide P) (ESUCCESS P) (EACCESS P) (ENOSUCH P)
             (parse P) (VMCopy_Read P) (fun _ _ => behind) (loadEntry P).

(** ** Tree-shaped parts of the heap

    The shape of a subtree: the address of its top entry and the shapes
    below its children, in the order of the [childs] list. *)
Inductive Shape := Node (a : Address) (kids : list Shape).

Definition top (t : Shape) : Address :=
  match t with Node a _ => a end.

(** All addresses of a shape, the top first. *)
Fixpoint addrs (t : Shape) : list Address :=
  match t with
  | Node a kids =>
      a :: (fix go (l : list Shape) : list Address :=
              match l with
              | [] => []
              | k :: l' => addrs k ++ go l'
              end) kids
  end.

Fixpoint addrs_list (l : list Shape) : list Address :=
  match l with
  | [] => []
  | k :: l' => addrs k ++ addrs_list l'
  end.

(** The number of levels of a shape: the depth [clearFileCache] recurses to. *)
Fixpoint height (t : Shape) : nat :=
  match t with
  | Node _ kids =>
      S ((fix go (l : list Shape) : nat :=
            match l with
            | [] => O
            | k :: l' => Nat.max (height k) (go l')
            end) kids)
  end.

Fixpoint height_list (l : list Shape) : nat :=
  match l with
  | [] => O
  | k :: l' => Nat.max (height k) (height_list l')
  end.

(** The heap holds a subtree of shape [t] whose top entry has parent pointer
    [par]: every entry of the shape exists, lists exactly its children and
    is pointed back to by them. *)
Inductive rep (h : gmap Address FileCache) : option Address -> Shape -> Prop :=
| rep_node par a kids e :
    h !! a = Some e ->
    parent e = par ->
    childs e = map top kids ->
    Forall (rep h (Some a)) kids ->
    rep h par (Node a kids).

(** The parent pointer of the top of a subtree leads outside the subtree,
    to an entry that exists (or is ZERO). *)
Definition parent_outside (h : gmap Address FileCache) (par : option Address)
    (t : Shape) : Prop :=
  match par with
  | Some p => (p ∉ addrs t) /\ is_Some (h !! p)
  | None => True
  end.

(** What a completed run on a subtree leaves of the rest of the heap: every
    entry outside the subtree other than the parent of its top is as it
    was, and that parent is still there, having lost children at most. *)
Definition outside_kept (fs fs' : FileSystem) (par : option Address) (l : list Address)
  : Prop :=
  (forall x, x ∉ l -> Some x <> par -> memory fs' !! x = memory fs !! x) /\
  (forall p pe, par = Some p -> memory fs !! p = Some pe ->
     exists pe', memory fs' !! p = Some pe' /\ same_entry pe pe').

(** ** The other overloads of [findFileCache] *)

(** [findFileCache(char *path)]: [FileSystemPath p(path)] parses the text,
    then the lookup by path. *)
Definition findFileCache_chars (P : Platform) (fs : FileSystem) (path : string)
  : option Address :=
  let p := parse P path in
  findFileCache fs p.

(** [findFileCache(String *path)]: ZERO for a null pointer, otherwise the
    lookup of the characters of the string. *)
Definition findFileCache_String (P : Platform) (fs : FileSystem) (path : option string)
  : option Address :=
  match path with
  | Some s => findFileCache_chars P fs s
  | None => None
  end.

(** ** The order of deletions

    The entries of a subtree whose count in [h] is zero, children before
    parent and the children in the order of the [childs] list. *)
Fixpoint evict_order (h : gmap Address FileCache) (t : Shape) : list Address :=
  match t with
  | Node a kids =>
      (fix go (l : list Shape) : list Address :=
         match l with
         | [] => []
         | k :: l' => evict_order h k ++ go l'
         end) kids
      ++ match h !! a with
         | Some e => if decide (count e = 0) then [a] else []
         | None => []
         end
  end.

Fixpoint evict_order_list (h : gmap Address FileCache) (l : list Shape) : list Address :=
  match l with
  | [] => []
  | k :: l' => evict_order h k ++ evict_order_list h l'
  end.

(** ** What eviction leaves of a tree *)

(** The entry at an address exists and has a nonzero count. *)
Definition is_held (h : gmap Address FileCache) (a : Address) : bool :=
  match h !! a with
  | Some e => negb (count e =? 0)
  | None => false
  end.

(** The shape without the subtrees below children that are not held (the
    top is kept as it is). *)
Fixpoint prune (h : gmap Address FileCache) (t : Shape) : Shape :=
  match t with
  | Node a kids =>
      Node a ((fix go (l : list Shape) : list Shape :=
                 match l with
                 | [] => []
                 | k :: l' => if is_held h (top k) then prune h k :: go l' else go l'
                 end) kids)
  end.

Fixpoint prune_list (h : gmap Address FileCache) (l : list Shape) : list Shape :=
  match l with
  | [] => []
  | k :: l' => if is_held h (top k) then prune h k :: prune_list h l' else prune_list h l'
  end.

(** The shape with a new leaf as the last child of the entry at [par]. *)
Fixpoint graft (par new : Address) (t : Shape) : Shape :=
  match t with
  | Node a kids =>
      Node a ((fix go (l : list Shape) : list Shape :=
                 match l with
                 | [] => []
                 | k :: l' => graft par new k :: go l'
                 end) kids
              ++ (if decide (a = par) then [Node new []] else []))
  end.

Fixpoint graft_list (par new : Address) (l : list Shape) : list Shape :=
  match l with
  | [] => []
  | k :: l' => graft par new k :: graft_list par new l'
  end.

(** An example with siblings: ["/x"], ["/a"] and ["/y"] cached under the
    root in this order (entries 2, 3 and 4), and ["/a"] opened once. *)
Definition siblings_a_held : option FileSystem :=
  fs ← fst <$> insertFileCache sample (FileSystem_new sample) (bytes_file []) "/x";
  fs ← fst <$> insertFileCache sample fs (bytes_file []) "/a";
  fs ← fst <$> insertFileCache sample fs (bytes_file []) "/y";
  fst <$> openFileHandler sample fs (open_msg 100) (blank OpenFile).

(** * Properties *)

(** ** Arithmetic of [Size] *)

Lemma Size_modulus_big (P : Platform) : 65536 <= Size_modulus P.
Proof.
  unfold Size_modulus. change 65536 with (2 ^ 16).
  apply Z.pow_le_mono_r; [lia | apply Size_bits_wide].
Qed.

Lemma Size_incr_small (P : Platform) (n : Z) :
  0 <= n < 65535 -> Size_incr P n = n + 1.
Proof.
  intros Hn. unfold Size_incr. pose proof (Size_modulus_big P).
  apply Z.mod_small. lia.
Qed.

Lemma Size_decr_zero (P : Platform) : Size_decr P 0 = Size_max P.
Proof.
  unfold Size_decr, Size_max. pose proof (Size_modulus_big P).
  symmetry. apply Z.mod_unique_pos with (q := -1); lia.
Qed.

Lemma Size_max_nonzero (P : Platform) : Size_max P <> 0.
Proof. unfold Size_max. pose proof (Size_modulus_big P). lia. Qed.

Lemma Size_incr_max (P : Platform) : Size_incr P (Size_max P) = 0.
Proof.
  unfold Size_incr, Size_max. pose proof (Size_modulus_big P).
  replace (Size_modulus P - 1 + 1) with (Size_modulus P) by lia.
  apply Z.mod_same. lia.
Qed.

(** ** The heap primitives *)

Lemma update_Some (a : Address) (f : FileCache -> FileCache) (fs fs' : FileSystem) :
  update a f fs = Some fs' ->
  exists e, memory fs !! a = Some e /\ fs' = set_memory (<[a := f e]> (memory fs)) fs.
Proof.
  unfold update. intros H. destruct (memory fs !! a) as [e|] eqn:He; simpl in H;
    [|discriminate].
  exists e. split; [reflexivity|]. congruence.
Qed.

Lemma update_live (a : Address) (f : FileCache -> FileCache) (fs : FileSystem) (e : FileCache) :
  memory fs !! a = Some e ->
  update a f fs = Some (set_memory (<[a := f e]> (memory fs)) fs).
Proof. intros He. unfold update. rewrite He. reflexivity. Qed.

Lemma forEach_preserves {S A : Type} (R : S -> S -> Prop)
    (body : S -> A -> option S) (l : list A) :
  (forall s, R s s) ->
  (forall s1 s2 s3, R s1 s2 -> R s2 s3 -> R s1 s3) ->
  (forall s x s', x ∈ l -> body s x = Some s' -> R s s') ->
  forall s s', forEach body s l = Some s' -> R s s'.
Proof.
  intros Hrefl Htrans. induction l as [|x l IH]; intros Hbody s s' Hrun; simpl in Hrun.
  - injection Hrun as <-. apply Hrefl.
  - destruct (body s x) as [s1|] eqn:Hx; simpl in Hrun; [|discriminate].
    apply Htrans with s1.
    + apply (Hbody s x s1); [left | exact Hx].
    + apply IH; [|exact Hrun]. intros s0 y s0' Hy. apply Hbody. right. exact Hy.
Qed.

(** ** What eviction leaves alone *)

Lemma same_entry_refl (e : FileCache) : same_entry e e.
Proof. by constructor. Qed.

Lemma same_entry_trans (e1 e2 e3 : FileCache) :
  same_entry e1 e2 -> same_entry e2 e3 -> same_entry e1 e3.
Proof.
  intros [F1 P1 Q1 C1 L1] [F2 P2 Q2 C2 L2].
  constructor; try congruence. intros x Hx. apply L1, L2, Hx.
Qed.

Lemma evict_rel_refl (fs : FileSystem) : evict_rel fs fs.
Proof.
  constructor; try reflexivity.
  - exists []. by rewrite app_nil_r.
  - intros a e' He'. exists e'. split; [exact He' | apply same_entry_refl].
  - intros a e He _. by exists e.
Qed.

Lemma evict_rel_trans (fs1 fs2 fs3 : FileSystem) :
  evict_rel fs1 fs2 -> evict_rel fs2 fs3 -> evict_rel fs1 fs3.
Proof.
  intros A B. constructor.
  - rewrite (er_handlers _ _ B). apply (er_handlers _ _ A).
  - rewrite (er_root _ _ B). apply (er_root _ _ A).
  - rewrite (er_cache _ _ B). apply (er_cache _ _ A).
  - rewrite (er_brk _ _ B). apply (er_brk _ _ A).
  - rewrite (er_looked _ _ B). apply (er_looked _ _ A).
  - rewrite (er_copied _ _ B). apply (er_copied _ _ A).
  - destruct (er_released _ _ A) as [l1 H1]. destruct (er_released _ _ B) as [l2 H2].
    exists (l1 ++ l2). rewrite H2, H1. by rewrite app_assoc.
  - intros a e3 H3. destruct (er_back _ _ B a e3 H3) as (e2 & H2 & S23).
    destruct (er_back _ _ A a e2 H2) as (e1 & H1 & S12).
    exists e1. split; [exact H1 | by apply same_entry_trans with e2].
  - intros a e1 H1 Hc. destruct (er_keep _ _ A a e1 H1 Hc) as [e2 H2].
    destruct (er_back _ _ A a e2 H2) as (e1' & H1' & S12).
    assert (e1' = e1) by congruence. subst e1'.
    apply (er_keep _ _ B a e2 H2). rewrite (se_count _ _ S12). exact Hc.
Qed.

(** Taking elements out of the children list of one entry. *)
Lemma detach_rel (p : Address) (Q : Address -> Prop) `{forall x, Decision (Q x)}
    (fs fs' : FileSystem) :
  update p (fun pe => set_childs (filter Q (childs pe)) pe) fs = Some fs' ->
  evict_rel fs fs'.
Proof.
  intros Hu. apply update_Some in Hu as (pe & Hpe & ->).
  constructor; simpl; try reflexivity.
  - exists []. by rewrite app_nil_r.
  - intros a e' He'. destruct (decide (p = a)) as [->|Hne].
    + rewrite lookup_insert_eq in He'. injection He' as <-.
      exists pe. split; [exact Hpe|]. constructor; simpl; try reflexivity.
      intros x Hx. by apply list_elem_of_filter in Hx as [_ Hx].
    + rewrite lookup_insert_ne in He' by exact Hne.
      exists e'. split; [exact He' | apply same_entry_refl].
  - intros a e He _. destruct (decide (p = a)) as [->|Hne].
    + rewrite lookup_insert_eq. by eexists.
    + rewrite lookup_insert_ne by exact Hne. by exists e.
Qed.

(** Deleting an entry whose count is zero. *)
Lemma free_rel (c : Address) (e : FileCache) (fs : FileSystem) :
  memory fs !! c = Some e -> count e = 0 -> evict_rel fs (free c fs).
Proof.
  intros He Hc. constructor; simpl; try reflexivity.
  - by exists [c].
  - intros a e' He'. destruct (decide (c = a)) as [->|Hne].
    + by rewrite lookup_delete_eq in He'.
    + rewrite lookup_delete_ne in He' by exact Hne.
      exists e'. split; [exact He' | apply same_entry_refl].
  - intros a ea Ha Hca. destruct (decide (c = a)) as [->|Hne].
    + congruence.
    + rewrite lookup_delete_ne by exact Hne. by exists ea.
Qed.

(** One unfolding of [clearFileCache], with its intermediate states named. *)
Lemma clearFileCache_unfold (fuel : nat) (fs fs' : FileSystem) (start : option Address) :
  clearFileCache (S fuel) fs start = Some fs' ->
  let c := match start with Some a => a | None => root fs end in
  exists e fs1 e1,
    memory fs !! c = Some e /\
    forEach (fun fs child => clearFileCache fuel fs (Some child)) fs (childs e) = Some fs1 /\
    memory fs1 !! c = Some e1 /\
    ((count e1 <> 0 /\ fs' = fs1) \/
     (count e1 = 0 /\ exists fs2,
        match parent e1 with
        | Some p => update p (fun pe => set_childs (filter (fun x => x ≠ c) (childs pe)) pe) fs1
        | None => Some fs1
        end = Some fs2 /\ fs' = free c fs2)).
Proof.
  intros H c. simpl in H. fold c in H.
  destruct (memory fs !! c) as [e|] eqn:He; simpl in H; [|discriminate].
  destruct (forEach _ fs (childs e)) as [fs1|] eqn:Hloop; simpl in H; [|discriminate].
  destruct (memory fs1 !! c) as [e1|] eqn:He1; simpl in H; [|discriminate].
  exists e, fs1, e1. do 3 (split; [first [reflexivity | assumption]|]).
  destruct (decide (count e1 = 0)) as [Hz|Hnz].
  - right. split; [exact Hz|].
    destruct (match parent e1 with Some p => _ | None => _ end) as [fs2|] eqn:H2;
      simpl in H; [|discriminate].
    exists fs2. split; [reflexivity | congruence].
  - left. split; [exact Hnz | congruence].
Qed.

Lemma update_keeps_count (p c : Address) (f : FileCache -> FileCache)
    (fs fs' : FileSystem) (e : FileCache) :
  (forall x, count (f x) = count x) ->
  update p f fs = Some fs' ->
  memory fs !! c = Some e ->
  exists e', memory fs' !! c = Some e' /\ count e' = count e.
Proof.
  intros Hf Hu He. apply update_Some in Hu as (pe & Hpe & ->). simpl.
  destruct (decide (p = c)) as [->|Hne].
  - rewrite lookup_insert_eq. exists (f pe). split; [reflexivity|].
    rewrite Hf. congruence.
  - rewrite lookup_insert_ne by exact Hne. by exists e.
Qed.

(** After the children have been visited, an entry with a zero count is
    taken out of its parent's list and is still in the heap to be deleted. *)
Lemma detach_step (c : Address) (e1 : FileCache) (fs1 fs2 : FileSystem) :
  memory fs1 !! c = Some e1 ->
  match parent e1 with
  | Some p => update p (fun pe => set_childs (filter (fun x => x ≠ c) (childs pe)) pe) fs1
  | None => Some fs1
  end = Some fs2 ->
  evict_rel fs1 fs2 /\ exists e2, memory fs2 !! c = Some e2 /\ count e2 = count e1.
Proof.
  intros He1 Hdet. destruct (parent e1) as [p|].
  - split; [by apply detach_rel in Hdet|].
    by apply (update_keeps_count p c _ fs1 fs2 e1) in Hdet.
  - injection Hdet as <-. split; [apply evict_rel_refl | by exists e1].
Qed.

(** Eviction, whatever the shape of the heap, changes nothing but the heap
    and the log of deletions; it deletes no entry with a nonzero count and
    changes no count. *)
Lemma clearFileCache_rel (fuel : nat) :
  forall fs start fs', clearFileCache fuel fs start = Some fs' -> evict_rel fs fs'.
Proof.
  induction fuel as [|fuel IH]; intros fs start fs' Hrun; [discriminate|].
  apply clearFileCache_unfold in Hrun as (e & fs1 & e1 & He & Hloop & He1 & Hend).
  assert (R1 : evict_rel fs fs1).
  { revert Hloop. apply forEach_preserves.
    - apply evict_rel_refl.
    - apply evict_rel_trans.
    - intros s x s' _ Hx. by apply IH in Hx. }
  destruct Hend as [[_ ->]|(Hz & fs2 & Hdet & ->)]; [exact R1|].
  apply evict_rel_trans with fs1; [exact R1|].
  apply detach_step in Hdet as (R2 & e2 & He2 & Hc2); [|exact He1].
  apply evict_rel_trans with fs2; [exact R2|].
  apply (free_rel _ e2); [exact He2 | congruence].
Qed.

Lemma evict_rel_dead (fs fs' : FileSystem) (a : Address) :
  evict_rel fs fs' -> memory fs !! a = None -> memory fs' !! a = None.
Proof.
  intros R Ha. destruct (memory fs' !! a) as [e'|] eqn:He'; [|reflexivity].
  destruct (er_back _ _ R a e' He') as (e & He & _). congruence.
Qed.

Lemma evict_rel_kept (fs fs' : FileSystem) (a : Address) (e : FileCache) :
  evict_rel fs fs' -> memory fs !! a = Some e -> count e <> 0 ->
  exists e', memory fs' !! a = Some e' /\ same_entry e e'.
Proof.
  intros R He Hc. destruct (er_keep _ _ R a e He Hc) as [e' He'].
  destruct (er_back _ _ R a e' He') as (e0 & He0 & S0).
  exists e'. split; [exact He'|]. congruence.
Qed.

(** The loop over the children of an entry is a chain of evictions. *)
Lemma evict_loop_rel (fuel : nat) (l : list Address) (fs fs' : FileSystem) :
  forEach (fun fs child => clearFileCache fuel fs (Some child)) fs l = Some fs' ->
  evict_rel fs fs'.
Proof.
  apply forEach_preserves.
  - apply evict_rel_refl.
  - apply evict_rel_trans.
  - intros s x s' _ Hx. by apply clearFileCache_rel in Hx.
Qed.

(** Every element of the list had the loop body run on it, between two
    chains of evictions. *)
Lemma evict_loop_visits (fuel : nat) (l : list Address) (x : Address) :
  x ∈ l ->
  forall fs fs',
  forEach (fun fs child => clearFileCache fuel fs (Some child)) fs l = Some fs' ->
  exists s1 s2, evict_rel fs s1 /\ clearFileCache fuel s1 (Some x) = Some s2 /\
                evict_rel s2 fs'.
Proof.
  induction l as [|y l IH]; intros Hx fs fs' Hrun; [by apply elem_of_nil in Hx|].
  simpl in Hrun.
  destruct (clearFileCache fuel fs (Some y)) as [fs1|] eqn:Hy; simpl in Hrun; [|discriminate].
  apply elem_of_cons in Hx as [->|Hx].
  - exists fs, fs1. split; [apply evict_rel_refl|]. split; [exact Hy|].
    by apply evict_loop_rel in Hrun.
  - destruct (IH Hx fs1 fs' Hrun) as (s1 & s2 & R1 & Hrun' & R2).
    exists s1, s2. split; [|by split].
    apply evict_rel_trans with fs1; [by apply clearFileCache_rel in Hy | exact R1].
Qed.

(** The entry [clearFileCache] is called on is deleted exactly when its own
    count is zero, and then as the last deletion of the call. *)
Lemma clearFileCache_zero (fuel : nat) (fs fs' : FileSystem) (c : Address) (e : FileCache) :
  clearFileCache fuel fs (Some c) = Some fs' ->
  memory fs !! c = Some e -> count e = 0 ->
  memory fs' !! c = None /\ exists l, released fs' = released fs ++ l ++ [c].
Proof.
  destruct fuel as [|fuel]; [discriminate|]. intros Hrun He Hz.
  apply clearFileCache_unfold in Hrun as (e0 & fs1 & e1 & He0 & Hloop & He1 & Hend).
  apply evict_loop_rel in Hloop as R1.
  destruct (er_back _ _ R1 c e1 He1) as (e' & He' & S1).
  assert (e' = e) by congruence. subst e'.
  destruct Hend as [[Hnz _]|(_ & fs2 & Hdet & ->)].
  - rewrite (se_count _ _ S1) in Hnz. contradiction.
  - apply detach_step in Hdet as (R2 & _); [|exact He1]. simpl. split.
    + apply lookup_delete_eq.
    + destruct (er_released _ _ R1) as [l1 H1]. destruct (er_released _ _ R2) as [l2 H2].
      exists (l1 ++ l2). rewrite H2, H1. by rewrite !app_assoc.
Qed.

(** The children are visited whatever the count of their parent: a child
    with a zero count is gone afterwards. *)
Lemma clearFileCache_child_zero (fuel : nat) (fs fs' : FileSystem) (c ch : Address)
    (e ech : FileCache) :
  clearFileCache fuel fs (Some c) = Some fs' ->
  memory fs !! c = Some e -> ch ∈ childs e ->
  memory fs !! ch = Some ech -> count ech = 0 ->
  memory fs' !! ch = None.
Proof.
  destruct fuel as [|fuel]; [discriminate|]. intros Hrun He Hch Hech Hz.
  apply clearFileCache_unfold in Hrun as (e0 & fs1 & e1 & He0 & Hloop & He1 & Hend).
  assert (e0 = e) by congruence. subst e0.
  assert (Hdead1 : memory fs1 !! ch = None).
  { destruct (evict_loop_visits fuel (childs e) ch Hch fs fs1 Hloop)
      as (s1 & s2 & R1 & Hvisit & R2).
    apply (evict_rel_dead s2 fs1 ch R2).
    destruct (memory s1 !! ch) as [e1'|] eqn:Hs1.
    - destruct (er_back _ _ R1 ch e1' Hs1) as (e' & He' & S').
      assert (e' = ech) by congruence. subst e'.
      apply (clearFileCache_zero fuel s1 s2 ch e1' Hvisit Hs1).
      rewrite (se_count _ _ S'). exact Hz.
    - apply clearFileCache_rel in Hvisit. by apply (evict_rel_dead s1 s2 ch Hvisit). }
  destruct Hend as [[_ ->]|(_ & fs2 & Hdet & ->)]; [exact Hdead1|].
  apply detach_step in Hdet as (R2 & _); [|exact He1].
  simpl. destruct (decide (c = ch)) as [->|Hne].
  - apply lookup_delete_eq.
  - rewrite lookup_delete_ne by exact Hne. by apply (evict_rel_dead fs1 fs2 ch R2).
Qed.

(** An entry that no existing entry lists as a child, and that is not the
    root, is not attached. *)
Lemma unlisted_not_attached (fs : FileSystem) (a : Address) :
  a <> root fs ->
  (forall p pe, memory fs !! p = Some pe -> a ∉ childs pe) ->
  ~ attached fs a.
Proof.
  intros Hroot Hlist Hatt. destruct Hatt as [|p pe a _ Hp Ha].
  - by apply Hroot.
  - by apply (Hlist p pe Hp).
Qed.

(** ** The open handler *)

(** [attach] on a heap that has the selected parent and whose allocation
    frontier is unused. *)
Lemma attach_spec (fs : FileSystem) (f : File.t) (p : FileSystemPath.t) (pe : FileCache) :
  memory fs !! parent_of fs p = Some pe ->
  memory fs !! brk fs = None ->
  attach fs f p =
    Some (mkFS (ipcHandlers fs) (root fs)
               (<[FileSystemPath.full p := brk fs]> (cache fs))
               (<[parent_of fs p := set_childs (childs pe ++ [brk fs]) pe]>
                  (<[brk fs := mkFileCache (Some f) (Some p) (Some (parent_of fs p)) [] 0]>
                     (memory fs)))
               (brk fs + 1)%N (looked_up fs) (released fs) (copied_out fs),
          brk fs).
Proof.
  intros Hpar Hfresh.
  assert (Hne : brk fs ≠ parent_of fs p) by congruence.
  unfold attach, alloc, update. simpl.
  rewrite lookup_insert_eq. simpl.
  rewrite lookup_insert_ne by exact Hne.
  rewrite lookup_insert_ne by exact Hne.
  rewrite Hpar. simpl. rewrite insert_insert_eq. reflexivity.
Qed.

(** Whenever [attach] returns, the new entry sits at the former allocation
    frontier. *)
Lemma attach_Some (fs fs' : FileSystem) (f : File.t) (p : FileSystemPath.t) (a : Address) :
  attach fs f p = Some (fs', a) ->
  a = brk fs /\ exists pe,
    (<[brk fs := mkFileCache (Some f) (Some p) (Some (parent_of fs p)) [] 0]> (memory fs))
      !! parent_of fs p = Some pe /\
    fs' = mkFS (ipcHandlers fs) (root fs)
               (<[FileSystemPath.full p := brk fs]> (cache fs))
               (<[parent_of fs p := set_childs (childs pe ++ [brk fs]) pe]>
                  (<[brk fs := mkFileCache (Some f) (Some p) (Some (parent_of fs p)) [] 0]>
                     (memory fs)))
               (brk fs + 1)%N (looked_up fs) (released fs) (copied_out fs).
Proof.
  unfold attach, alloc, update. simpl. rewrite lookup_insert_eq. simpl.
  rewrite insert_insert_eq.
  destruct (_ !! parent_of fs p) as [pe|] eqn:Hpe; simpl; [|discriminate].
  intros [= <- <-]. split; [reflexivity|]. exists pe. split; reflexivity.
Qed.

(** The open handler when the copy of the path fails. *)
Lemma openFileHandler_copy_failed (P : Platform) (fs : FileSystem)
    (msg reply : FileSystemMessage) (copied : Z) (data : string) :
  VMCopy_Read P (from msg) (buffer msg) PATHLEN = (copied, data) ->
  copied <= 0 ->
  openFileHandler P fs msg reply = Some (fs, set_result (EACCESS P) reply).
Proof.
  intros Hcopy Hle. unfold openFileHandler. rewrite Hcopy.
  destruct (copied <=? 0) eqn:Hc; [reflexivity | lia].
Qed.

(** The open handler once the path has arrived. *)
Lemma openFileHandler_copied (P : Platform) (fs : FileSystem)
    (msg reply : FileSystemMessage) (copied : Z) (data : string) :
  VMCopy_Read P (from msg) (buffer msg) PATHLEN = (copied, data) ->
  0 < copied ->
  openFileHandler P fs msg reply =
    let path := parse P (parse_input P msg data) in
    '(fs, found) ← match findFileCache fs path with
                   | Some entry => Some (fs, Some entry)
                   | None => lookupFile P fs path
                   end;
    match found with
    | Some entry =>
        fs ← update entry (fun e => set_count (Size_incr P (count e)) e) fs;
        Some (fs, set_ident entry (set_result (ESUCCESS P) reply))
    | None => Some (fs, set_result (ENOSUCH P) reply)
    end.
Proof.
  intros Hcopy Hpos. unfold openFileHandler. rewrite Hcopy.
  destruct (copied <=? 0) eqn:Hc; [lia | reflexivity].
Qed.

(** ** The root is held *)

Lemma root_held_new (P : Platform) : root_held 1%N (FileSystem_new P).
Proof.
  constructor; simpl.
  - reflexivity.
  - exists (mkFileCache None None None [] (Size_incr P 0)).
    rewrite lookup_alter_eq, lookup_insert_eq. simpl.
    repeat split. apply (Size_incr_small P 0). lia.
  - lia.
  - intros k a Hk. by rewrite lookup_empty in Hk.
Qed.

(** A store through a pointer keeps the root held when it goes to another
    entry, or changes the children list only. *)
Lemma root_held_update (r a : Address) (f : FileCache -> FileCache) (fs fs' : FileSystem) :
  root_held r fs ->
  a <> r \/ (forall e, file (f e) = file e /\ path (f e) = path e /\
                       parent (f e) = parent e /\ count (f e) = count e) ->
  update a f fs = Some fs' ->
  root_held r fs'.
Proof.
  intros [Hr (e & He & Hc & Hp & Hf & Hq) Hb Hi] Hcase Hu.
  apply update_Some in Hu as (ea & Hea & ->).
  constructor; simpl; try assumption.
  destruct (decide (a = r)) as [->|Hne].
  - destruct Hcase as [Hcase|Hcase]; [done|].
    assert (ea = e) by congruence. subst ea.
    destruct (Hcase e) as (F1 & F2 & F3 & F4).
    exists (f e). rewrite lookup_insert_eq. split; [reflexivity|].
    repeat split; congruence.
  - exists e. rewrite lookup_insert_ne by exact Hne. by repeat split.
Qed.

Lemma root_held_attach (r : Address) (fs fs' : FileSystem) (f : File.t)
    (p : FileSystemPath.t) (a : Address) :
  root_held r fs -> attach fs f p = Some (fs', a) ->
  root_held r fs' /\ a <> r.
Proof.
  intros H Hatt. pose proof H as [Hr (e & He & Hc & Hp & Hf & Hq) Hb Hi].
  apply attach_Some in Hatt as (-> & pe & Hpe & ->).
  assert (Hne : brk fs ≠ r) by lia.
  split; [|exact Hne]. constructor; simpl.
  - exact Hr.
  - destruct (decide (parent_of fs p = r)) as [Heq|Hpr].
    + rewrite Heq in *. rewrite lookup_insert_ne in Hpe by exact Hne.
      assert (pe = e) by congruence. subst pe.
      eexists. rewrite lookup_insert_eq. split; [reflexivity|]. by repeat split.
    + exists e. rewrite lookup_insert_ne by exact Hpr.
      rewrite lookup_insert_ne by exact Hne. by repeat split.
  - lia.
  - intros k b Hk. destruct (decide (FileSystemPath.full p = k)) as [Heq|Hk'].
    + rewrite Heq, lookup_insert_eq in Hk. congruence.
    + rewrite lookup_insert_ne in Hk by exact Hk'. by apply (Hi k).
Qed.

Lemma root_held_open (P : Platform) (r : Address) (fs fs' : FileSystem)
    (msg reply reply' : FileSystemMessage) :
  root_held r fs ->
  openFileHandler P fs msg reply = Some (fs', reply') ->
  root_held r fs' /\ (ident reply' <> r \/ ident reply' = ident reply).
Proof.
  intros H Hrun.
  destruct (VMCopy_Read P (from msg) (buffer msg) PATHLEN) as [copied data] eqn:Hcopy.
  destruct (Z_le_gt_dec copied 0) as [Hle|Hgt].
  - rewrite (openFileHandler_copy_failed P fs msg reply copied data Hcopy Hle) in Hrun.
    injection Hrun as <- <-. split; [exact H|]. by right.
  - rewrite (openFileHandler_copied P fs msg reply copied data Hcopy) in Hrun by lia.
    cbv zeta in Hrun. set (p := parse P (parse_input P msg data)) in *.
    assert (Hfound : forall fs1 entry,
              root_held r fs1 -> entry <> r ->
              (fs0 ← update entry (fun e => set_count (Size_incr P (count e)) e) fs1;
               Some (fs0, set_ident entry (set_result (ESUCCESS P) reply))) = Some (fs', reply') ->
              root_held r fs' /\ (ident reply' <> r \/ ident reply' = ident reply)).
    { intros fs1 entry H1 Hne Hupd.
      destruct (update entry _ fs1) as [fs2|] eqn:Hu; simpl in Hupd; [|discriminate].
      injection Hupd as <- <-. split.
      - eapply root_held_update; [exact H1 | by left | exact Hu].
      - by left. }
    unfold findFileCache, cacheHit in Hrun.
    destruct (cache fs !! FileSystemPath.full p) as [entry|] eqn:Hix; simpl in Hrun.
    + apply (Hfound fs entry H); [|exact Hrun]. by apply (rh_index _ _ H _ _ Hix).
    + unfold lookupFile in Hrun. destruct (loadEntry P p) as [f|]; simpl in Hrun.
      * destruct (attach (log_lookup p fs) f p) as [[fs1 entry]|] eqn:Hatt;
          simpl in Hrun; [|discriminate].
        assert (H0 : root_held r (log_lookup p fs)) by (by destruct H; constructor).
        destruct (root_held_attach r _ fs1 f p entry H0 Hatt) as [H1 Hne].
        by apply (Hfound fs1 entry H1 Hne).
      * injection Hrun as <- <-. split; [by destruct H; constructor|].
        by right.
Qed.

Lemma root_held_read (P : Platform) (r : Address) (fs fs' : FileSystem)
    (msg reply reply' : FileSystemMessage) :
  root_held r fs ->
  readFileHandler P fs msg reply = Some (fs', reply') ->
  root_held r fs'.
Proof.
  intros H Hrun. unfold readFileHandler in Hrun.
  destruct (memory fs !! ident msg) as [fc|]; simpl in Hrun; [|discriminate].
  destruct (file fc) as [f|]; simpl in Hrun; [|discriminate].
  destruct (File.read f _ _) as [res buf].
  destruct (res >? 0); injection Hrun as <- <-; by destruct H; constructor.
Qed.

Lemma root_held_close (P : Platform) (r : Address) (fs fs' : FileSystem)
    (msg reply reply' : FileSystemMessage) :
  root_held r fs -> ident msg <> r ->
  closeFileHandler P fs msg reply = Some (fs', reply') ->
  root_held r fs'.
Proof.
  intros H Hne Hrun. unfold closeFileHandler in Hrun.
  destruct (update (ident msg) _ fs) as [fs1|] eqn:Hu; simpl in Hrun; [|discriminate].
  injection Hrun as <- <-. eapply root_held_update; [exact H | by left | exact Hu].
Qed.

Lemma root_held_evict (r : Address) (fuel : nat) (fs fs' : FileSystem)
    (start : option Address) :
  root_held r fs ->
  clearFileCache fuel fs start = Some fs' ->
  root_held r fs'.
Proof.
  intros [Hr (e & He & Hc & Hp & Hf & Hq) Hb Hi] Hrun.
  apply clearFileCache_rel in Hrun as R.
  destruct (evict_rel_kept fs fs' r e R He) as (e' & He' & S'); [lia|].
  constructor.
  - rewrite (er_root _ _ R). exact Hr.
  - exists e'. split; [exact He'|].
    rewrite (se_count _ _ S'), (se_parent _ _ S'), (se_file _ _ S'), (se_path _ _ S').
    by repeat split.
  - rewrite (er_brk _ _ R). exact Hb.
  - rewrite (er_cache _ _ R). exact Hi.
Qed.

Lemma root_held_step (P : Platform) (r : Address) (fs fs' : FileSystem) (q : Request) :
  root_held r fs ->
  (forall msg, q = Close msg -> ident msg <> r) ->
  step P fs q fs' ->
  root_held r fs'.
Proof.
  intros H Hclose Hstep. destruct Hstep as [fs msg reply fs' reply' Hrun
    | fs msg reply fs' reply' Hrun | fs msg reply fs' reply' Hrun | fs start fuel fs' Hrun].
  - by destruct (root_held_open P r fs fs' msg reply reply' H Hrun).
  - by apply (root_held_read P r fs fs' msg reply reply').
  - apply (root_held_close P r fs fs' msg reply reply' H); [|exact Hrun].
    by apply Hclose.
  - by apply (root_held_evict r fuel fs fs' start).
Qed.

Lemma root_held_steps (P : Platform) (r : Address) (rs : list Request) :
  forall fs fs', root_held r fs ->
  (forall msg, Close msg ∈ rs -> ident msg <> r) ->
  steps P fs rs fs' ->
  root_held r fs'.
Proof.
  induction rs as [|q rs IH]; intros fs fs' H Hclose Hsteps; inversion Hsteps; subst.
  - exact H.
  - apply (IH fs'0 fs'); [|intros msg Hm; apply Hclose; by right|assumption].
    apply (root_held_step P r fs fs'0 q H); [|assumption].
    intros msg ->. apply Hclose. by left.
Qed.

(** ** The runner follows the step relation *)

Lemma exec_step (P : Platform) (fuel : nat) (fs fs' : FileSystem) (q : Request) :
  exec P fuel fs q = Some fs' -> step P fs q fs'.
Proof.
  destruct q as [msg|msg|msg|start]; simpl; intros H.
  - destruct (openFileHandler P fs msg (blank OpenFile)) as [[fs1 reply']|] eqn:Hrun;
      simpl in H; [|discriminate]. injection H as <-. by eapply step_open.
  - destruct (readFileHandler P fs msg (blank ReadFile)) as [[fs1 reply']|] eqn:Hrun;
      simpl in H; [|discriminate]. injection H as <-. by eapply step_read.
  - destruct (closeFileHandler P fs msg (blank CloseFile)) as [[fs1 reply']|] eqn:Hrun;
      simpl in H; [|discriminate]. injection H as <-. by eapply step_close.
  - by eapply step_evict.
Qed.

Lemma execs_steps (P : Platform) (fuel : nat) (rs : list Request) :
  forall fs fs', execs P fuel fs rs = Some fs' -> steps P fs rs fs'.
Proof.
  induction rs as [|q rs IH]; intros fs fs' H; unfold execs in H; simpl in H.
  - injection H as <-. constructor.
  - destruct (exec P fuel fs q) as [fs1|] eqn:Hq; simpl in H; [|discriminate].
    apply steps_cons with fs1; [by apply exec_step in Hq | by apply IH].
Qed.

(** ** Eviction on a tree-shaped part of the heap *)

Lemma addrs_Node (a : Address) (kids : list Shape) :
  addrs (Node a kids) = a :: addrs_list kids.
Proof. reflexivity. Qed.

Lemma height_Node (a : Address) (kids : list Shape) :
  height (Node a kids) = S (height_list kids).
Proof. reflexivity. Qed.

Lemma Shape_nested_ind (Q : Shape -> Prop) :
  (forall a kids, Forall Q kids -> Q (Node a kids)) -> forall t, Q t.
Proof.
  intros Hnode. fix IH 1. intros [a kids]. apply Hnode.
  induction kids as [|k kids IHkids]; constructor; [apply IH | exact IHkids].
Qed.

(** A subtree is represented in every heap that agrees with the given one
    on the addresses of the subtree. *)
Lemma rep_frame (h h' : gmap Address FileCache) (t : Shape) :
  forall par, rep h par t ->
  (forall x, x ∈ addrs t -> h' !! x = h !! x) ->
  rep h' par t.
Proof.
  induction t as [a kids IH] using Shape_nested_ind. intros par Hrep Hsame.
  inversion Hrep as [par0 a0 kids0 e He Hpar Hch Hkids]; subst.
  apply (rep_node h' (parent e) a kids e); [|reflexivity|exact Hch|].
  - rewrite Hsame; [exact He | rewrite addrs_Node; by left].
  - rewrite addrs_Node in Hsame.
    assert (Hsame' : forall x, x ∈ addrs_list kids -> h' !! x = h !! x)
      by (intros x Hx; apply Hsame; by right).
    clear Hsame He Hch Hrep.
    induction kids as [|k kids IHk]; constructor.
    + apply (Forall_inv IH); [apply (Forall_inv Hkids)|].
      intros x Hx. apply Hsame'. simpl. apply elem_of_app. by left.
    + apply IHk; [apply (Forall_inv_tail IH) | apply (Forall_inv_tail Hkids)|].
      intros x Hx. apply Hsame'. simpl. apply elem_of_app. by right.
Qed.

Lemma addrs_list_elem (ks : list Shape) (k : Shape) (x : Address) :
  k ∈ ks -> x ∈ addrs k -> x ∈ addrs_list ks.
Proof.
  induction ks as [|k' ks IH]; intros Hk Hx; [by apply elem_of_nil in Hk|].
  simpl. apply elem_of_app. apply elem_of_cons in Hk as [->|Hk]; [by left|].
  right. by apply IH.
Qed.

(** [clearFileCache] with its intermediate states supplied. *)
Lemma clearFileCache_fold (fuel : nat) (fs fs1 : FileSystem) (c : Address)
    (e e1 : FileCache) :
  memory fs !! c = Some e ->
  forEach (fun fs child => clearFileCache fuel fs (Some child)) fs (childs e) = Some fs1 ->
  memory fs1 !! c = Some e1 ->
  clearFileCache (S fuel) fs (Some c) =
    if decide (count e1 = 0) then
      fs2 ← match parent e1 with
            | Some p => update p (fun pe => set_childs (filter (fun x => x ≠ c) (childs pe)) pe) fs1
            | None => Some fs1
            end;
      Some (free c fs2)
    else Some fs1.
Proof. intros He Hloop He1. simpl. rewrite He. simpl. rewrite Hloop. simpl. by rewrite He1. Qed.

(** The loop over the children of an entry at [a], given that eviction
    with [fuel] completes on every subtree of height [fuel] at most. *)
Lemma evict_loop_tree (fuel : nat) (a : Address) :
  (forall fs par t,
     rep (memory fs) par t -> NoDup (addrs t) -> parent_outside (memory fs) par t ->
     (height t <= fuel)%nat ->
     exists fs', clearFileCache fuel fs (Some (top t)) = Some fs' /\
                 outside_kept fs fs' par (addrs t)) ->
  forall kids fs,
    Forall (rep (memory fs) (Some a)) kids ->
    NoDup (addrs_list kids) -> a ∉ addrs_list kids ->
    is_Some (memory fs !! a) ->
    (height_list kids <= fuel)%nat ->
    exists fs1,
      forEach (fun fs child => clearFileCache fuel fs (Some child)) fs (map top kids)
        = Some fs1 /\
      outside_kept fs fs1 (Some a) (addrs_list kids).
Proof.
  intros IHfuel. induction kids as [|k ks IH]; intros fs Hrep Hnd Ha Hlive Hh.
  - exists fs. split; [reflexivity|]. split; [done|].
    intros p pe _ Hp. exists pe. split; [exact Hp | apply same_entry_refl].
  - simpl in Hnd, Ha, Hh. apply NoDup_app in Hnd as (Hndk & Hdisj & Hndks).
    apply not_elem_of_app in Ha as [Hak Haks].
    destruct (IHfuel fs (Some a) k (Forall_inv Hrep) Hndk (conj Hak Hlive))
      as (s1 & Hrun & Hframe1 & Hpar1); [lia|].
    destruct Hlive as [ea Hea].
    destruct (Hpar1 a ea eq_refl Hea) as (ea1 & Hea1 & S1).
    assert (Hrep1 : Forall (rep (memory s1) (Some a)) ks).
    { apply Forall_forall. intros k' Hk'.
      apply (rep_frame (memory fs)); [by apply (proj1 (Forall_forall _ _) (Forall_inv_tail Hrep))|].
      intros x Hx. apply Hframe1.
      - intros Hxk. apply (Hdisj x Hxk). by apply (addrs_list_elem ks k').
      - intros [= ->]. apply Haks. by apply (addrs_list_elem ks k'). }
    destruct (IH s1 Hrep1 Hndks Haks (ex_intro _ ea1 Hea1)) as (fs1 & Hloop & Hframe2 & Hpar2);
      [lia|].
    exists fs1. split; [simpl; rewrite Hrun; exact Hloop|]. split.
    + intros x Hx Hxa. apply not_elem_of_app in Hx as [Hxk Hxks].
      rewrite (Hframe2 x Hxks Hxa). by apply Hframe1.
    + intros p pe [= <-] Hp. assert (pe = ea) by congruence. subst pe.
      destruct (Hpar2 a ea1 eq_refl Hea1) as (ea2 & Hea2 & S2).
      exists ea2. split; [exact Hea2 | by apply same_entry_trans with ea1].
Qed.

(** Eviction runs to completion on every subtree of the heap, with fuel
    for its height. *)
Lemma clearFileCache_tree (fuel : nat) :
  forall fs par t,
    rep (memory fs) par t -> NoDup (addrs t) -> parent_outside (memory fs) par t ->
    (height t <= fuel)%nat ->
    exists fs', clearFileCache fuel fs (Some (top t)) = Some fs' /\
                outside_kept fs fs' par (addrs t).
Proof.
  induction fuel as [|fuel IHfuel]; intros fs par [a kids] Hrep Hnd Hpar Hh;
    [rewrite height_Node in Hh; lia|].
  rewrite height_Node in Hh. rewrite addrs_Node in Hnd |- *.
  apply NoDup_cons in Hnd as [Ha Hnd].
  inversion Hrep as [par0 a0 kids0 e He Hpe Hch Hkids]; subst.
  destruct (evict_loop_tree fuel a IHfuel kids fs Hkids Hnd Ha (ex_intro _ e He))
    as (fs1 & Hloop & Hframe1 & Hself); [lia|].
  destruct (Hself a e eq_refl He) as (e1 & He1 & S1).
  rewrite <- Hch in Hloop. simpl top.
  rewrite (clearFileCache_fold fuel fs fs1 a e e1 He Hloop He1).
  assert (Hout : forall x, x ∉ a :: addrs_list kids -> memory fs1 !! x = memory fs !! x).
  { intros x Hx. apply not_elem_of_cons in Hx as [Hxa Hx]. apply Hframe1; [exact Hx|].
    by intros [= ->]. }
  destruct (decide (count e1 = 0)) as [Hz|Hnz].
  - rewrite (se_parent _ _ S1). destruct (parent e) as [p|] eqn:Hp.
    + destruct Hpar as [Hpout [pe Hpe]]. rewrite addrs_Node in Hpout.
      assert (Hpe1 : memory fs1 !! p = Some pe) by (by rewrite (Hout p Hpout)).
      rewrite (update_live _ _ fs1 pe Hpe1). simpl. eexists. split; [reflexivity|].
      assert (Hpa : a <> p) by (intros ->; apply Hpout; by left).
      split.
      * intros x Hx Hxp. simpl.
        assert (x <> a) by (intros ->; apply Hx; by left).
        rewrite lookup_delete_ne by done.
        rewrite lookup_insert_ne by (by intros ->).
        by apply Hout.
      * intros p' pe' [= <-] Hpe'. assert (pe' = pe) by congruence. subst pe'.
        simpl. rewrite lookup_delete_ne by exact Hpa. rewrite lookup_insert_eq.
        eexists. split; [reflexivity|]. constructor; simpl; try reflexivity.
        intros x Hx. by apply list_elem_of_filter in Hx as [_ Hx].
    + simpl. eexists. split; [reflexivity|]. split; [|intros p pe [=]].
      intros x Hx _. simpl.
      assert (x <> a) by (intros ->; apply Hx; by left).
      rewrite lookup_delete_ne by done. by apply Hout.
  - eexists. split; [reflexivity|]. split.
    + intros x Hx _. by apply Hout.
    + intros p pe Hp Hpe. rewrite Hp in Hpar. destruct Hpar as [Hpout _].
      rewrite addrs_Node in Hpout. exists pe. split; [by rewrite (Hout p Hpout) | apply same_entry_refl].
Qed.

(** More fuel does not change the outcome of a run that completes. *)
Lemma clearFileCache_fuel_mono (fuel : nat) :
  forall fuel' fs start fs',
    (fuel <= fuel')%nat ->
    clearFileCache fuel fs start = Some fs' ->
    clearFileCache fuel' fs start = Some fs'.
Proof.
  induction fuel as [|fuel IH]; intros fuel' fs start fs' Hle Hrun; [discriminate|].
  destruct fuel' as [|fuel']; [lia|].
  assert (Hloop : forall l s s',
             forEach (fun fs child => clearFileCache fuel fs (Some child)) s l = Some s' ->
             forEach (fun fs child => clearFileCache fuel' fs (Some child)) s l = Some s').
  { induction l as [|x l IHl]; intros s s' Hl; [exact Hl|]. simpl in Hl |- *.
    destruct (clearFileCache fuel s (Some x)) as [s1|] eqn:Hx; simpl in Hl; [|discriminate].
    rewrite (IH fuel' s (Some x) s1) by (lia || exact Hx). simpl. by apply IHl. }
  simpl in Hrun |- *.
  destruct (memory fs !! _) as [e|]; simpl in Hrun |- *; [|discriminate].
  destruct (forEach _ fs (childs e)) as [fs1|] eqn:Hl; simpl in Hrun; [|discriminate].
  rewrite (Hloop _ _ _ Hl). simpl. exact Hrun.
Qed.

(** The same, as a test that can be evaluated on a concrete heap. *)
Lemma not_attached_check (fs : FileSystem) (a : Address) :
  a <> root fs ->
  bool_decide (map_Forall (fun _ pe => a ∉ childs pe) (memory fs)) = true ->
  ~ attached fs a.
Proof.
  intros Hroot Hcheck. apply unlisted_not_attached; [exact Hroot|].
  apply bool_decide_eq_true_1 in Hcheck. intros p pe Hp.
  apply (map_Forall_lookup_1 _ _ _ _ Hcheck Hp).
Qed.

(** That only [c] lists [ch] as a child, as a test on a concrete heap. *)
Lemma only_listed_check (fs : FileSystem) (ch c : Address) :
  bool_decide (map_Forall (fun p pe => ch ∈ childs pe -> p = c) (memory fs)) = true ->
  forall p pe, memory fs !! p = Some pe -> ch ∈ childs pe -> p = c.
Proof.
  intros Hcheck p pe Hp. apply bool_decide_eq_true_1 in Hcheck.
  apply (map_Forall_lookup_1 _ _ _ _ Hcheck Hp).
Qed.

(** ** The order of deletions on a tree *)

Lemma evict_order_Node (h : gmap Address FileCache) (a : Address) (kids : list Shape) :
  evict_order h (Node a kids) =
    evict_order_list h kids ++
    match h !! a with
    | Some e => if decide (count e = 0) then [a] else []
    | None => []
    end.
Proof.
  simpl. f_equal. induction kids as [|k ks IH]; [reflexivity|]. simpl. by rewrite IH.
Qed.

Lemma evict_order_frame (h h' : gmap Address FileCache) (t : Shape) :
  (forall x, x ∈ addrs t -> h' !! x = h !! x) ->
  evict_order h' t = evict_order h t.
Proof.
  induction t as [a kids IH] using Shape_nested_ind. intros Hsame.
  rewrite !evict_order_Node, addrs_Node in *.
  rewrite (Hsame a) by (by left). f_equal.
  assert (Hsame' : forall x, x ∈ addrs_list kids -> h' !! x = h !! x)
    by (intros x Hx; apply Hsame; by right).
  clear Hsame. induction kids as [|k ks IHks]; [reflexivity|]. simpl in *. f_equal.
  - apply (Forall_inv IH). intros x Hx. apply Hsame'. apply elem_of_app. by left.
  - apply IHks; [apply (Forall_inv_tail IH)|].
    intros x Hx. apply Hsame'. apply elem_of_app. by right.
Qed.

Lemma evict_order_list_frame (h h' : gmap Address FileCache) (ks : list Shape) :
  (forall x, x ∈ addrs_list ks -> h' !! x = h !! x) ->
  evict_order_list h' ks = evict_order_list h ks.
Proof.
  induction ks as [|k ks IH]; intros Hsame; [reflexivity|]. simpl in *. f_equal.
  - apply evict_order_frame. intros x Hx. apply Hsame. apply elem_of_app. by left.
  - apply IH. intros x Hx. apply Hsame. apply elem_of_app. by right.
Qed.

Lemma update_released (a : Address) (f : FileCache -> FileCache) (fs fs' : FileSystem) :
  update a f fs = Some fs' -> released fs' = released fs.
Proof. intros Hu. by apply update_Some in Hu as (e & _ & ->). Qed.

Lemma rep_kids_frame (h h' : gmap Address FileCache) (a : Address) (ks : list Shape) :
  Forall (rep h (Some a)) ks ->
  (forall x, x ∈ addrs_list ks -> h' !! x = h !! x) ->
  Forall (rep h' (Some a)) ks.
Proof.
  intros Hrep Hsame. apply Forall_forall. intros k Hk.
  apply (rep_frame h); [by apply (proj1 (Forall_forall _ _) Hrep)|].
  intros x Hx. apply Hsame. by apply (addrs_list_elem ks k).
Qed.

(** The loop over the children, given what a run with [fuel] deletes on
    every subtree of height [fuel] at most. *)
Lemma evict_loop_tree_order (fuel : nat) (a : Address) :
  (forall fs par t fs',
     rep (memory fs) par t -> NoDup (addrs t) -> parent_outside (memory fs) par t ->
     (height t <= fuel)%nat ->
     clearFileCache fuel fs (Some (top t)) = Some fs' ->
     released fs' = released fs ++ evict_order (memory fs) t /\
     (forall x e, x ∈ addrs t -> memory fs !! x = Some e -> count e = 0 ->
        memory fs' !! x = None)) ->
  forall kids fs fs1,
    Forall (rep (memory fs) (Some a)) kids ->
    NoDup (addrs_list kids) -> a ∉ addrs_list kids ->
    is_Some (memory fs !! a) ->
    (height_list kids <= fuel)%nat ->
    forEach (fun fs child => clearFileCache fuel fs (Some child)) fs (map top kids)
      = Some fs1 ->
    released fs1 = released fs ++ evict_order_list (memory fs) kids /\
    (forall x e, x ∈ addrs_list kids -> memory fs !! x = Some e -> count e = 0 ->
       memory fs1 !! x = None).
Proof.
  intros IHfuel. induction kids as [|k ks IH]; intros fs fs1 Hrep Hnd Ha Hlive Hh Hloop.
  - injection Hloop as <-. split; [by rewrite app_nil_r|].
    intros x e Hx. by apply elem_of_nil in Hx.
  - simpl in Hnd, Ha, Hh, Hloop. apply NoDup_app in Hnd as (Hndk & Hdisj & Hndks).
    apply not_elem_of_app in Ha as [Hak Haks].
    destruct (clearFileCache fuel fs (Some (top k))) as [s1|] eqn:Hrun; simpl in Hloop;
      [|discriminate].
    destruct (clearFileCache_tree fuel fs (Some a) k (Forall_inv Hrep) Hndk (conj Hak Hlive))
      as (s1' & Hrun' & Hframe1 & Hpar1); [lia|].
    assert (s1' = s1) by congruence. subst s1'.
    destruct (IHfuel fs (Some a) k s1 (Forall_inv Hrep) Hndk (conj Hak Hlive)) as [Hlog1 Hdead1];
      [lia | exact Hrun|].
    assert (Hsame : forall x, x ∈ addrs_list ks -> memory s1 !! x = memory fs !! x).
    { intros x Hx. apply Hframe1; [intros Hxk; by apply (Hdisj x Hxk)|].
      intros [= ->]. by apply Haks. }
    assert (Hlive1 : is_Some (memory s1 !! a)).
    { destruct Hlive as [ea Hea]. destruct (Hpar1 a ea eq_refl Hea) as (ea1 & Hea1 & _).
      by exists ea1. }
    destruct (IH s1 fs1 (rep_kids_frame _ _ a ks (Forall_inv_tail Hrep) Hsame) Hndks Haks
                Hlive1) as [Hlog2 Hdead2]; [lia | exact Hloop|].
    split.
    + rewrite Hlog2, Hlog1, (evict_order_list_frame _ _ ks Hsame). simpl.
      by rewrite app_assoc.
    + intros x e Hx He Hz. apply elem_of_app in Hx as [Hx|Hx].
      * apply (evict_rel_dead s1 fs1 x); [by apply evict_loop_rel in Hloop|].
        by apply (Hdead1 x e).
      * apply (Hdead2 x e Hx); [|exact Hz]. by rewrite (Hsame x Hx).
Qed.

(** On a tree-shaped part of the heap a completed run has deleted exactly
    the entries with count zero, children before parents. *)
Lemma clearFileCache_tree_order (fuel : nat) :
  forall fs par t fs',
    rep (memory fs) par t -> NoDup (addrs t) -> parent_outside (memory fs) par t ->
    (height t <= fuel)%nat ->
    clearFileCache fuel fs (Some (top t)) = Some fs' ->
    released fs' = released fs ++ evict_order (memory fs) t /\
    (forall x e, x ∈ addrs t -> memory fs !! x = Some e -> count e = 0 ->
       memory fs' !! x = None).
Proof.
  induction fuel as [|fuel IHfuel]; intros fs par [a kids] fs' Hrep Hnd Hpar Hh Hrun;
    [discriminate|].
  rewrite height_Node in Hh. rewrite addrs_Node in Hnd |- *. rewrite evict_order_Node.
  apply NoDup_cons in Hnd as [Ha Hnd].
  inversion Hrep as [par0 a0 kids0 e He Hpe Hch Hkids]; subst.
  simpl top in Hrun.
  apply clearFileCache_unfold in Hrun as (e0 & fs1 & e1 & He0 & Hloop & He1 & Hend).
  cbv zeta in *. assert (e0 = e) by congruence. subst e0.
  apply evict_loop_rel in Hloop as R1. rewrite Hch in Hloop.
  destruct (evict_loop_tree_order fuel a IHfuel kids fs fs1 Hkids Hnd Ha (ex_intro _ e He))
    as [Hlog Hdead]; [lia | exact Hloop|].
  destruct (er_back _ _ R1 a e1 He1) as (e' & He' & S1).
  assert (e' = e) by congruence. subst e'.
  rewrite He. destruct Hend as [[Hnz ->]|(Hz & fs2 & Hdet & ->)].
  - rewrite (se_count _ _ S1) in Hnz. destruct (decide (count e = 0)) as [Hz|_]; [done|].
    split; [by rewrite app_nil_r|].
    intros x ex Hx Hex Hzx. apply elem_of_cons in Hx as [->|Hx]; [congruence|].
    by apply (Hdead x ex).
  - rewrite (se_count _ _ S1) in Hz. destruct (decide (count e = 0)) as [_|Hnz]; [|done].
    assert (Hrel2 : released fs2 = released fs1).
    { destruct (parent e1) as [p|]; [by apply update_released in Hdet | congruence]. }
    apply detach_step in Hdet as (R2 & _); [|exact He1].
    split; [simpl; rewrite Hrel2, Hlog; by rewrite app_assoc|].
    intros x ex Hx Hex Hzx. simpl. destruct (decide (a = x)) as [->|Hne].
    + apply lookup_delete_eq.
    + rewrite lookup_delete_ne by exact Hne. apply (evict_rel_dead fs1 fs2 x R2).
      apply elem_of_cons in Hx as [->|Hx]; [done|]. by apply (Hdead x ex).
Qed.

(** What a completed run on a subtree does to the parent of its top: the
    top is taken out of the parent's children when the top is deleted, and
    the parent is as it was otherwise. *)
Lemma clearFileCache_tree_parent (fuel : nat) (fs fs' : FileSystem) (p : Address)
    (pe e : FileCache) (t : Shape) :
  rep (memory fs) (Some p) t -> NoDup (addrs t) -> p ∉ addrs t ->
  memory fs !! p = Some pe -> memory fs !! top t = Some e ->
  (height t <= fuel)%nat ->
  clearFileCache fuel fs (Some (top t)) = Some fs' ->
  memory fs' !! p =
    Some (if decide (count e = 0)
          then set_childs (filter (fun x => x ≠ top t) (childs pe)) pe
          else pe).
Proof.
  destruct fuel as [|fuel]; intros Hrep Hnd Hp Hpe He Hh Hrun; [discriminate|].
  destruct t as [a kids]. rewrite height_Node in Hh. rewrite addrs_Node in Hnd, Hp.
  apply NoDup_cons in Hnd as [Ha Hnd]. apply not_elem_of_cons in Hp as [Hpa Hpk].
  simpl top in *.
  inversion Hrep as [par0 a0 kids0 e0 He0 Hpar Hch Hkids]; subst.
  assert (e0 = e) by congruence. subst e0.
  destruct (evict_loop_tree fuel a (clearFileCache_tree fuel) kids fs Hkids Hnd Ha
              (ex_intro _ e He)) as (fs1 & Hloop & Hframe1 & Hself); [lia|].
  destruct (Hself a e eq_refl He) as (e1 & He1 & S1).
  rewrite <- Hch in Hloop.
  rewrite (clearFileCache_fold fuel fs fs1 a e e1 He Hloop He1) in Hrun.
  assert (Hpe1 : memory fs1 !! p = Some pe).
  { rewrite Hframe1; [exact Hpe | exact Hpk | congruence]. }
  rewrite (se_count _ _ S1), (se_parent _ _ S1), Hpar in Hrun.
  destruct (decide (count e = 0)) as [Hz|Hnz].
  - rewrite (update_live _ _ fs1 pe Hpe1) in Hrun. simpl in Hrun. injection Hrun as <-.
    simpl. rewrite lookup_delete_ne by congruence. by rewrite lookup_insert_eq.
  - injection Hrun as <-. exact Hpe1.
Qed.

(** * The claims *)

(** ** C1: eviction and the index *)

(** [clearFileCache] never touches the index: whatever it deletes stays
    indexed. *)
Lemma clearFileCache_keeps_index (fuel : nat) (fs fs' : FileSystem) (start : option Address) :
  clearFileCache fuel fs start = Some fs' -> cache fs' = cache fs.
Proof. intros H. apply clearFileCache_rel in H. apply (er_cache _ _ H). Qed.

(** C1.  The claim asks that every entry eviction removes leaves the index
    too, so that indexed and attached agree.  On a filesystem that has just
    cached ["/a"] (count 0) eviction from the root deletes the entry at
    address 2 and takes it out of the root's children, yet the index still
    maps ["/a"] to address 2: the entry is indexed, deleted and not attached. *)
Theorem evict_leaves_deleted_entry_indexed :
  exists fs0 fs',
    cached_a = Some fs0 /\
    count_at fs0 2%N = Some 0 /\
    cache fs0 !! "/a"%string = Some 2%N /\
    clearFileCache 2 fs0 None = Some fs' /\
    released fs' = [2%N] /\
    memory fs' !! 2%N = None /\
    childs_at fs' (root fs') = Some [] /\
    ~ attached fs' 2%N /\
    cache fs' !! "/a"%string = Some 2%N.
Proof.
  eexists. eexists. split; [vm_compute; reflexivity|].
  split; [by vm_compute|]. split; [by vm_compute|].
  split; [vm_compute; reflexivity|].
  split; [reflexivity|]. split; [by vm_compute|]. split; [by vm_compute|].
  split; [|by vm_compute].
  apply not_attached_check; by vm_compute.
Qed.

(** ** C2: close requests *)

(** The handler itself: one decrement of the count of the entry named by
    the request, modulo the range of [Size]; nothing else changes and the
    reply is as it was. *)
Lemma closeFileHandler_decrements (P : Platform) (fs : FileSystem)
    (msg reply : FileSystemMessage) (e : FileCache) :
  memory fs !! ident msg = Some e ->
  closeFileHandler P fs msg reply =
    Some (set_memory (<[ident msg := set_count (Size_decr P (count e)) e]> (memory fs)) fs,
          reply).
Proof. intros He. unfold closeFileHandler. by rewrite (update_live _ _ _ e He). Qed.

(** The handler table the constructor builds has no entry for [CloseFile]. *)
Lemma constructor_registers_no_close (P : Platform) :
  handler_for CloseFile (ipcHandlers (FileSystem_new P)) = None.
Proof. reflexivity. Qed.

(** So a [CloseFile] request dispatched on any state that carries the
    constructor's handler table changes neither the state nor the reply. *)
Lemma dispatch_close_ignored (P : Platform) (fs : FileSystem)
    (msg reply : FileSystemMessage) :
  ipcHandlers fs = ipcHandlers (FileSystem_new P) ->
  action msg = CloseFile ->
  dispatch P fs msg reply = Some (fs, reply).
Proof. intros Htable Hact. unfold dispatch. by rewrite Hact, Htable. Qed.

(** C2.  The claim has every [CloseFile] request delivered to the server
    decrement the count of the entry it names.  The constructor registers
    handlers for [OpenFile] and [ReadFile] only.  Here ["/a"] is cached, a
    client opens it through the dispatcher (entry 2, count 1) and then sends
    [CloseFile] for entry 2: no handler runs, state and reply are as before
    the request and the count is still 1, while [closeFileHandler] called on
    the same request would have brought it to 0. *)
Theorem close_request_reaches_no_handler :
  exists fs0 fs1 reply1,
    cached_a = Some fs0 /\
    dispatch sample fs0 (open_msg 100) (blank OpenFile) = Some (fs1, reply1) /\
    ident reply1 = 2%N /\
    count_at fs1 2%N = Some 1 /\
    dispatch sample fs1 (close_msg 2) (blank CloseFile) = Some (fs1, blank CloseFile) /\
    (fs2 ← fst <$> closeFileHandler sample fs1 (close_msg 2) (blank CloseFile);
     count_at fs2 2%N) = Some 0.
Proof.
  do 3 eexists. split; [vm_compute; reflexivity|]. split; [vm_compute; reflexivity|].
  split; [reflexivity|]. split; [by vm_compute|]. split; by vm_compute.
Qed.

(** ** C3: the root *)

(** C3.  After construction the root sits at address 1 with count 1 and no
    parent.  A close is given the identity of an open file, and the root's
    identity is none: no open, in any state a sequence of operations leads
    to, hands it out.  After any sequence of open, read, close and evict
    operations that run to completion and whose closes name other
    identities than the root's, the root pointer is unchanged and the root
    entry exists with count 1 and no parent, so it is the root of the tree
    still, whatever the state of its children. *)
Theorem root_never_evicted (P : Platform) (rs : list Request) (fs : FileSystem) :
  steps P (FileSystem_new P) rs fs ->
  (forall msg, Close msg ∈ rs -> ident msg <> root (FileSystem_new P)) ->
  count_at (FileSystem_new P) (root (FileSystem_new P)) = Some 1 /\
  root fs = root (FileSystem_new P) /\
  count_at fs (root fs) = Some 1 /\
  parent_at fs (root fs) = Some None /\
  attached fs (root fs) /\
  (forall msg reply fs' reply',
     openFileHandler P fs msg reply = Some (fs', reply') ->
     ident reply' <> root fs \/ ident reply' = ident reply).
Proof.
  intros Hsteps Hclose.
  pose proof (root_held_new P) as H0.
  assert (H : root_held 1%N fs) by (by apply (root_held_steps P 1%N rs _ fs H0)).
  assert (Hopen : forall msg reply fs' reply',
             openFileHandler P fs msg reply = Some (fs', reply') ->
             ident reply' <> root fs \/ ident reply' = ident reply).
  { intros msg reply fs' reply' Hrun. rewrite (rh_root _ _ H).
    by destruct (root_held_open P 1%N fs fs' msg reply reply' H Hrun). }
  destruct H0 as [_ (e0 & He0 & Hc0 & _) _ _].
  destruct H as [Hr (e & He & Hc & Hp & _) _ _].
  change (root (FileSystem_new P)) with 1%N. unfold count_at, parent_at.
  rewrite He0. split; [simpl; by rewrite Hc0|]. split; [exact Hr|].
  split; [rewrite Hr, He; simpl; by rewrite Hc|].
  split; [rewrite Hr, He; simpl; by rewrite Hp|].
  split; [constructor | exact Hopen].
Qed.

Lemma root_never_evicted_witness :
  exists fs,
    steps sample (FileSystem_new sample)
      [Open (open_msg 100); Read (read_msg 2 0 16); Close (close_msg 2); Evict None] fs /\
    (forall msg,
       Close msg ∈ [Open (open_msg 100); Read (read_msg 2 0 16); Close (close_msg 2);
                    Evict None] ->
       ident msg <> root (FileSystem_new sample)) /\
    released fs = [2%N] /\
    count_at (FileSystem_new sample) (root (FileSystem_new sample)) = Some 1 /\
    root fs = root (FileSystem_new sample) /\
    count_at fs (root fs) = Some 1 /\
    parent_at fs (root fs) = Some None /\
    attached fs (root fs) /\
    (forall msg reply fs' reply',
       openFileHandler sample fs msg reply = Some (fs', reply') ->
       ident reply' <> root fs \/ ident reply' = ident reply).
Proof.
  assert (Hrun : exists fs,
             execs sample 2 (FileSystem_new sample)
               [Open (open_msg 100); Read (read_msg 2 0 16); Close (close_msg 2);
                Evict None] = Some fs /\ released fs = [2%N]).
  { eexists. split; [vm_compute; reflexivity | reflexivity]. }
  destruct Hrun as (fs & Hrun & Hrel). apply execs_steps in Hrun.
  assert (Hclose : forall msg,
             Close msg ∈ [Open (open_msg 100); Read (read_msg 2 0 16); Close (close_msg 2);
                          Evict None] ->
             ident msg <> root (FileSystem_new sample)).
  { intros msg Hin.
    repeat (apply elem_of_cons in Hin as [Heq|Hin];
            [try discriminate Heq; injection Heq as ->; by vm_compute|]).
    by apply elem_of_nil in Hin. }
  exists fs. split; [exact Hrun|]. split; [exact Hclose|]. split; [exact Hrel|].
  exact (root_never_evicted sample _ fs Hrun Hclose).
Defined.

(** ** C4: opening a path twice *)

(** A hit: when the parsed path is in the index and its entry exists, open
    increments that entry's count, answers with its identity and asks the
    backing store nothing. *)
Lemma openFileHandler_hit (P : Platform) (fs : FileSystem)
    (msg reply : FileSystemMessage) (copied : Z) (data : string)
    (a : Address) (e : FileCache) :
  VMCopy_Read P (from msg) (buffer msg) PATHLEN = (copied, data) ->
  0 < copied ->
  cache fs !! FileSystemPath.full (parse P (parse_input P msg data)) = Some a ->
  memory fs !! a = Some e ->
  openFileHandler P fs msg reply =
    Some (set_memory (<[a := set_count (Size_incr P (count e)) e]> (memory fs)) fs,
          set_ident a (set_result (ESUCCESS P) reply)).
Proof.
  intros Hcopy Hpos Hhit Ha.
  rewrite (openFileHandler_copied P fs msg reply copied data Hcopy Hpos). cbv zeta.
  unfold findFileCache, cacheHit. rewrite Hhit. simpl.
  by rewrite (update_live _ _ fs e Ha).
Qed.

(** Two opens of a path that is already cached with count 0 (as
    [insertFileCache] leaves it): the same identity twice, count 2, and no
    call of the backing store at all. *)
Lemma open_twice_cached (P : Platform) (fs : FileSystem)
    (msg reply1 reply2 : FileSystemMessage) (copied : Z) (data : string)
    (a : Address) (e : FileCache) :
  VMCopy_Read P (from msg) (buffer msg) PATHLEN = (copied, data) ->
  0 < copied ->
  cache fs !! FileSystemPath.full (parse P (parse_input P msg data)) = Some a ->
  memory fs !! a = Some e ->
  count e = 0 ->
  exists fs1 fs2,
    openFileHandler P fs msg reply1
      = Some (fs1, set_ident a (set_result (ESUCCESS P) reply1)) /\
    openFileHandler P fs1 msg reply2
      = Some (fs2, set_ident a (set_result (ESUCCESS P) reply2)) /\
    count_at fs2 a = Some 2 /\
    looked_up fs2 = looked_up fs.
Proof.
  intros Hcopy Hpos Hhit Ha Hz.
  set (e1 := set_count (Size_incr P (count e)) e).
  set (fs1 := set_memory (<[a := e1]> (memory fs)) fs).
  assert (H1 : memory fs1 !! a = Some e1) by (simpl; apply lookup_insert_eq).
  exists fs1, (set_memory (<[a := set_count (Size_incr P (count e1)) e1]> (memory fs1)) fs1).
  split; [by apply (openFileHandler_hit P fs msg reply1 copied data a e)|].
  split; [by apply (openFileHandler_hit P fs1 msg reply2 copied data a e1)|].
  split; [|reflexivity].
  unfold count_at. simpl. rewrite lookup_insert_eq. simpl. rewrite Hz.
  rewrite (Size_incr_small P 0) by lia. change (0 + 1) with 1.
  by rewrite (Size_incr_small P 1) by lia.
Qed.



(** ** C5: what eviction decides by *)

(** The state of the example: ["/a"] cached and idle, ["/a/b"] cached below
    it and opened once. *)
Lemma parent_idle_child_open :
  exists fs0 fs,
    cached_a_b = Some fs0 /\
    execs sample 0 fs0 [Open (open_msg 200)] = Some fs /\
    count_at fs 2%N = Some 0 /\ childs_at fs 2%N = Some [3%N] /\
    count_at fs 3%N = Some 1 /\ parent_at fs 3%N = Some (Some 2%N) /\
    childs_at fs (root fs) = Some [2%N] /\
    looked_up fs = [].
Proof.
  eexists. eexists. split; [vm_compute; reflexivity|].
  split; [vm_compute; reflexivity|]. repeat split; by vm_compute.
Qed.

(** C5, as stated, fails in its last part: a live child of a removed parent
    is not reachable through outstanding handles only.  With ["/a"] idle and
    ["/a/b"] open, eviction deletes ["/a"] (entry 2) and keeps ["/a/b"]
    (entry 3) with count 1, unattached; but the index still leads to entry
    3, so the next open of ["/a/b"] finds it there and is handed its
    identity, without any use of the handle that was outstanding. *)
Lemma detached_child_still_indexed :
  exists fs0 fs fs' fs'' reply,
    cached_a_b = Some fs0 /\
    execs sample 0 fs0 [Open (open_msg 200)] = Some fs /\
    clearFileCache 3 fs None = Some fs' /\
    released fs' = [2%N] /\
    count_at fs' 3%N = Some 1 /\
    ~ attached fs' 3%N /\
    findFileCache fs' (sample_parse "/a/b") = Some 3%N /\
    openFileHandler sample fs' (open_msg 200) (blank OpenFile) = Some (fs'', reply) /\
    result reply = ESUCCESS sample /\ ident reply = 3%N /\
    looked_up fs'' = [].
Proof.
  do 5 eexists. split; [vm_compute; reflexivity|].
  split; [vm_compute; reflexivity|]. split; [vm_compute; reflexivity|].
  split; [reflexivity|]. split; [by vm_compute|].
  split; [apply not_attached_check; by vm_compute|].
  split; [by vm_compute|]. split; [vm_compute; reflexivity|].
  repeat split.
Qed.

(** What a completed run of [clearFileCache] on the entry at [c] has done,
    on any heap. *)
Lemma clearFileCache_own_count (fuel : nat) (fs fs' : FileSystem) (c : Address)
    (e : FileCache) :
  clearFileCache fuel fs (Some c) = Some fs' ->
  memory fs !! c = Some e ->
  (count e = 0 ->
     memory fs' !! c = None /\ exists l, released fs' = released fs ++ l ++ [c]) /\
  (count e <> 0 -> count_at fs' c = Some (count e)) /\
  (forall ch ech, ch ∈ childs e -> memory fs !! ch = Some ech -> count ech = 0 ->
     memory fs' !! ch = None) /\
  (forall a ea, memory fs !! a = Some ea -> count ea <> 0 ->
     count_at fs' a = Some (count ea)) /\
  (count e = 0 ->
   forall ch ech, ch ∈ childs e -> memory fs !! ch = Some ech -> count ech <> 0 ->
     ch <> root fs ->
     (forall p pe, memory fs !! p = Some pe -> ch ∈ childs pe -> p = c) ->
     count_at fs' ch = Some (count ech) /\ ~ attached fs' ch).
Proof.
  intros Hrun He. pose proof (clearFileCache_rel fuel fs (Some c) fs' Hrun) as R.
  assert (Hkept : forall a ea, memory fs !! a = Some ea -> count ea <> 0 ->
                    count_at fs' a = Some (count ea)).
  { intros a ea Ha Hnz. destruct (evict_rel_kept fs fs' a ea R Ha Hnz) as (ea' & Ha' & S').
    unfold count_at. rewrite Ha'. simpl. by rewrite (se_count _ _ S'). }
  split; [intros Hz; by apply (clearFileCache_zero fuel fs fs' c e)|].
  split; [intros Hnz; by apply Hkept|].
  split; [intros ch ech Hch Hech Hz; by apply (clearFileCache_child_zero fuel fs fs' c ch e ech)|].
  split; [exact Hkept|].
  intros Hz ch ech Hch Hech Hnz Hroot Honly. split; [by apply Hkept|].
  destruct (clearFileCache_zero fuel fs fs' c e Hrun He Hz) as [Hgone _].
  apply unlisted_not_attached; [by rewrite (er_root _ _ R)|].
  intros p pe' Hp' Hin. destruct (er_back _ _ R p pe' Hp') as (pe & Hp & S').
  assert (p = c) by (apply (Honly p pe Hp); by apply (se_childs _ _ S')).
  subst p. congruence.
Qed.

(** C5, amended.  On a tree-shaped part of the heap [clearFileCache] runs
    to completion, to one result for all fuel that covers the height of the
    tree, and it has visited every entry of the tree, at every depth and
    below kept entries as below deleted ones: each entry whose own count is
    zero is gone and each other entry is there with its count, and the log
    of deletions has grown by the deleted entries in post-order (for every
    entry its children first, in the order of its [childs] list, then the
    entry).  And whenever a run on an entry completes, on any heap: the
    entry is deleted exactly when its own count is zero, and then last,
    after everything deleted below it; every child with a zero count is gone
    whatever the count of the entry; no entry with a nonzero count is
    deleted or changes its count; and when the entry goes, a child with a
    nonzero count that no other entry lists stays in the heap and is no
    longer attached to the tree. *)
Theorem evict_decides_by_own_count :
  (forall (fs : FileSystem) (par : option Address) (t : Shape),
     rep (memory fs) par t -> NoDup (addrs t) -> parent_outside (memory fs) par t ->
     exists fs',
       (forall fuel, (height t <= fuel)%nat ->
          clearFileCache fuel fs (Some (top t)) = Some fs') /\
       released fs' = released fs ++ evict_order (memory fs) t /\
       (forall x e, x ∈ addrs t -> memory fs !! x = Some e ->
          (count e = 0 -> memory fs' !! x = None) /\
          (count e <> 0 -> count_at fs' x = Some (count e)))) /\
  (forall (fuel : nat) (fs fs' : FileSystem) (c : Address) (e : FileCache),
     clearFileCache fuel fs (Some c) = Some fs' ->
     memory fs !! c = Some e ->
     (count e = 0 ->
        memory fs' !! c = None /\ exists l, released fs' = released fs ++ l ++ [c]) /\
     (count e <> 0 -> count_at fs' c = Some (count e)) /\
     (forall ch ech, ch ∈ childs e -> memory fs !! ch = Some ech -> count ech = 0 ->
        memory fs' !! ch = None) /\
     (forall a ea, memory fs !! a = Some ea -> count ea <> 0 ->
        count_at fs' a = Some (count ea)) /\
     (count e = 0 ->
      forall ch ech, ch ∈ childs e -> memory fs !! ch = Some ech -> count ech <> 0 ->
        ch <> root fs ->
        (forall p pe, memory fs !! p = Some pe -> ch ∈ childs pe -> p = c) ->
        count_at fs' ch = Some (count ech) /\ ~ attached fs' ch)).
Proof.
  split.
  - intros fs par t Hrep Hnd Hpar.
    destruct (clearFileCache_tree (height t) fs par t Hrep Hnd Hpar) as (fs' & Hrun & _);
      [lia|].
    destruct (clearFileCache_tree_order (height t) fs par t fs' Hrep Hnd Hpar (le_n _) Hrun)
      as [Hlog Hdead].
    exists fs'. split; [|split; [exact Hlog|]].
    + intros fuel Hfuel. by apply (clearFileCache_fuel_mono (height t) fuel).
    + intros x e Hx He. split; [by apply (Hdead x e)|].
      intros Hnz. apply clearFileCache_rel in Hrun.
      destruct (evict_rel_kept fs fs' x e Hrun He Hnz) as (e' & He' & S').
      unfold count_at. rewrite He'. simpl. by rewrite (se_count _ _ S').
  - exact clearFileCache_own_count.
Qed.

(** The theorem at two trees: an idle entry above an open one, where the
    idle entry goes and the open one stays behind unattached; and an idle
    entry below an open one below the root, where the run passes the open
    entry and deletes the idle one beneath it. *)
Lemma evict_decides_by_own_count_witness :
  (exists fs fs' e ech,
     memory fs !! 2%N = Some e /\ count e = 0 /\ childs e = [3%N] /\
     memory fs !! 3%N = Some ech /\ count ech = 1 /\
     rep (memory fs) (Some 1%N) (Node 2%N [Node 3%N []]) /\
     NoDup (addrs (Node 2%N [Node 3%N []])) /\
     parent_outside (memory fs) (Some 1%N) (Node 2%N [Node 3%N []]) /\
     clearFileCache 2 fs (Some 2%N) = Some fs' /\
     released fs' = released fs ++ [2%N] /\
     memory fs' !! 2%N = None /\
     count_at fs' 3%N = Some 1 /\
     ~ attached fs' 3%N) /\
  (exists fs fs',
     count_at fs 1%N = Some 1 /\ count_at fs 2%N = Some 1 /\ count_at fs 3%N = Some 0 /\
     rep (memory fs) None (Node 1%N [Node 2%N [Node 3%N []]]) /\
     NoDup (addrs (Node 1%N [Node 2%N [Node 3%N []]])) /\
     clearFileCache 3 fs (Some 1%N) = Some fs' /\
     released fs' = released fs ++ [3%N] /\
     memory fs' !! 3%N = None /\
     count_at fs' 2%N = Some 1 /\ count_at fs' 1%N = Some 1).
Proof.
  destruct evict_decides_by_own_count as [Htree Hdone]. split.
  - assert (H : exists fs0 fs e ech er,
               cached_a_b = Some fs0 /\
               execs sample 0 fs0 [Open (open_msg 200)] = Some fs /\
               memory fs !! 2%N = Some e /\
               count e = 0 /\ childs e = [3%N] /\ parent e = Some 1%N /\
               memory fs !! 3%N = Some ech /\
               count ech = 1 /\ childs ech = [] /\ parent ech = Some 2%N /\
               memory fs !! 1%N = Some er /\
               3%N <> root fs /\
               (forall p pe, memory fs !! p = Some pe -> 3%N ∈ childs pe -> p = 2%N) /\
               evict_order (memory fs) (Node 2%N [Node 3%N []]) = [2%N]).
    { do 5 eexists. split; [vm_compute; reflexivity|].
      split; [vm_compute; reflexivity|]. split; [vm_compute; reflexivity|].
      do 3 (split; [reflexivity|]). split; [vm_compute; reflexivity|].
      do 3 (split; [reflexivity|]). split; [vm_compute; reflexivity|].
      split; [by vm_compute|]. split; [apply only_listed_check; by vm_compute|].
      by vm_compute. }
    destruct H as (fs0 & fs & e & ech & er & _ & _ & He & Hz & Hch & Hpe & Hech & Hc & Hchc &
                   Hpc & Her & Hroot & Honly & Horder).
    assert (Hrep : rep (memory fs) (Some 1%N) (Node 2%N [Node 3%N []])).
    { apply (rep_node (memory fs) (Some 1%N) 2%N [Node 3%N []] e He Hpe Hch).
      constructor; [|constructor].
      apply (rep_node (memory fs) (Some 2%N) 3%N [] ech Hech Hpc Hchc). constructor. }
    assert (Hnd : NoDup (addrs (Node 2%N [Node 3%N []]))).
    { compute_done. }
    assert (Hout : parent_outside (memory fs) (Some 1%N) (Node 2%N [Node 3%N []])).
    { split; [compute_done | by exists er]. }
    destruct (Htree fs (Some 1%N) (Node 2%N [Node 3%N []]) Hrep Hnd Hout)
      as (fs' & Hany & Hlog & _).
    pose proof (Hany 2%nat (le_n 2)) as Hrun.
    destruct (Hdone 2%nat fs fs' 2%N e Hrun He) as (Hown & _ & _ & _ & Hcut).
    destruct (Hown Hz) as [Hgone _].
    assert (Hin : 3%N ∈ childs e) by (rewrite Hch; apply elem_of_cons; by left).
    assert (Hnz : count ech <> 0) by lia.
    destruct (Hcut Hz 3%N ech Hin Hech Hnz Hroot Honly) as [Hkept Hdet].
    rewrite Hc in Hkept. rewrite Horder in Hlog. exists fs, fs', e, ech.
    exact (conj He (conj Hz (conj Hch (conj Hech (conj Hc (conj Hrep (conj Hnd (conj Hout
             (conj Hrun (conj Hlog (conj Hgone (conj Hkept Hdet)))))))))))).
  - assert (H : exists fs0 fs e1 e2 e3,
               cached_a_b = Some fs0 /\
               execs sample 0 fs0 [Open (open_msg 100)] = Some fs /\
               memory fs !! 1%N = Some e1 /\ parent e1 = None /\ childs e1 = [2%N] /\
               count e1 = 1 /\
               memory fs !! 2%N = Some e2 /\ parent e2 = Some 1%N /\ childs e2 = [3%N] /\
               count e2 = 1 /\
               memory fs !! 3%N = Some e3 /\ parent e3 = Some 2%N /\ childs e3 = [] /\
               count e3 = 0 /\
               evict_order (memory fs) (Node 1%N [Node 2%N [Node 3%N []]]) = [3%N]).
    { do 5 eexists. split; [vm_compute; reflexivity|].
      split; [vm_compute; reflexivity|]. split; [vm_compute; reflexivity|].
      do 3 (split; [reflexivity|]). split; [vm_compute; reflexivity|].
      do 3 (split; [reflexivity|]). split; [vm_compute; reflexivity|].
      do 3 (split; [reflexivity|]). by vm_compute. }
    destruct H as (fs0 & fs & e1 & e2 & e3 & _ & _ & H1 & P1 & C1 & N1 & H2 & P2 & C2 & N2 &
                   H3 & P3 & C3 & N3 & Horder).
    assert (Hrep : rep (memory fs) None (Node 1%N [Node 2%N [Node 3%N []]])).
    { apply (rep_node (memory fs) None 1%N [Node 2%N [Node 3%N []]] e1 H1 P1 C1).
      constructor; [|constructor].
      apply (rep_node (memory fs) (Some 1%N) 2%N [Node 3%N []] e2 H2 P2 C2).
      constructor; [|constructor].
      apply (rep_node (memory fs) (Some 2%N) 3%N [] e3 H3 P3 C3). constructor. }
    assert (Hnd : NoDup (addrs (Node 1%N [Node 2%N [Node 3%N []]]))) by compute_done.
    destruct (Htree fs None (Node 1%N [Node 2%N [Node 3%N []]]) Hrep Hnd I)
      as (fs' & Hany & Hlog & Hin).
    assert (M1 : 1%N ∈ addrs (Node 1%N [Node 2%N [Node 3%N []]])) by compute_done.
    assert (M2 : 2%N ∈ addrs (Node 1%N [Node 2%N [Node 3%N []]])) by compute_done.
    assert (M3 : 3%N ∈ addrs (Node 1%N [Node 2%N [Node 3%N []]])) by compute_done.
    destruct (Hin 1%N e1 M1 H1) as [_ K1]. destruct (Hin 2%N e2 M2 H2) as [_ K2].
    destruct (Hin 3%N e3 M3 H3) as [D3 _].
    rewrite Horder in Hlog. rewrite N1 in K1. rewrite N2 in K2.
    exists fs, fs'. unfold count_at at 1 2 3. rewrite H1, H2, H3. simpl.
    rewrite N1, N2, N3.
    split; [reflexivity|]. split; [reflexivity|]. split; [reflexivity|].
    split; [exact Hrep|]. split; [exact Hnd|]. split; [exact (Hany 3%nat (le_n 3))|].
    split; [exact Hlog|]. split; [exact (D3 N3)|].
    split; [apply K2; lia | apply K1; lia].
Defined.

(** ** C6: the size of a read *)




(** ** C7: a path nobody knows *)



(** ** C8: a path that cannot be fetched *)



(** ** C9: paths longer than [PATHLEN] *)

Lemma str_take_length (n : nat) (s : string) :
  (String.length (str_take n s) <= n)%nat.
Proof.
  revert s. induction n as [|n IH]; intros [|c s]; simpl; try lia.
  specialize (IH s). lia.
Qed.

(** C9, as stated, fails.  The client's memory at address 400 holds a path
    of 70 characters.  [insertFileCache] given the 70 characters returns an
    entry whose path is the first 63 of them, indexed and found under that
    shorter path.  Open does not reject the request before parsing:
    whatever the memory behind its buffer holds, the buffer is parsed and
    the backing store is asked for the parsed path, and the [ENOSUCH] of the
    answer is that of a path the backing store does not know. *)
Lemma long_path_truncated_not_rejected :
  String.length long_path = 70%nat /\
  (PATHLEN < String.length long_path)%nat /\
  sample_client 400 = Some long_path /\
  (exists fs'',
     insertFileCache sample (FileSystem_new sample) (bytes_file []) long_path
       = Some (fs'', 2%N) /\
     cache fs'' !! str_take (PATHLEN - 1) long_path = Some 2%N /\
     cache fs'' !! long_path = None /\
     full_path_at fs'' 2%N = Some (str_take (PATHLEN - 1) long_path) /\
     findFileCache_chars sample fs'' (str_take (PATHLEN - 1) long_path) = Some 2%N) /\
  (forall behind, exists fs' reply,
     openFileHandler (with_behind_buf sample_no_store behind)
       (FileSystem_new sample_no_store) (open_msg 400) (blank OpenFile) = Some (fs', reply) /\
     result reply = ENOSUCH sample_no_store /\
     looked_up fs' = [sample_parse (str_take PATHLEN long_path ++ behind)]).
Proof.
  split; [reflexivity|]. split; [vm_compute; lia|]. split; [reflexivity|].
  split.
  - eexists. split; [vm_compute; reflexivity|]. repeat split; by vm_compute.
  - intros behind.
    rewrite (openFileHandler_copied (with_behind_buf sample_no_store behind)
               (FileSystem_new sample_no_store) (open_msg 400) (blank OpenFile)
               64 (str_take PATHLEN long_path) eq_refl eq_refl).
    cbv zeta. unfold findFileCache, cacheHit.
    change (cache (FileSystem_new sample_no_store)) with (∅ : gmap string Address).
    rewrite lookup_empty. unfold lookupFile.
    change (loadEntry (with_behind_buf sample_no_store behind)) with
      (fun p : FileSystemPath.t => assoc_file [] (FileSystemPath.full p)).
    cbv beta. change (assoc_file [] ?k) with (@None File.t).
    do 2 eexists. split; [reflexivity|]. split; reflexivity.
Qed.

(** C9, amended.  No request is rejected for the length of its path.
    Once the copy from the client has succeeded, open parses its buffer and
    answers by what cache and backing store hold for the parsed path:
    [ESUCCESS] with an entry the index has under that path, or [ENOSUCH]
    after the backing store was asked for it; it does answer so when the
    path is cached at a live entry, and when neither the cache nor the
    backing store has it.  [insertFileCache] creates the entry under the
    first [PATHLEN - 1] characters of the formatted path, whatever its
    length. *)
Theorem path_length_not_examined (P : Platform) (fs : FileSystem)
    (msg reply : FileSystemMessage) (copied : Z) (data : string) :
  VMCopy_Read P (from msg) (buffer msg) PATHLEN = (copied, data) ->
  0 < copied ->
  (forall fs' reply',
     openFileHandler P fs msg reply = Some (fs', reply') ->
     (result reply' = ESUCCESS P /\
      cache fs' !! FileSystemPath.full (parse P (parse_input P msg data))
        = Some (ident reply')) \/
     (result reply' = ENOSUCH P /\
      looked_up fs' = looked_up fs ++ [parse P (parse_input P msg data)])) /\
  (forall a e,
     cache fs !! FileSystemPath.full (parse P (parse_input P msg data)) = Some a ->
     memory fs !! a = Some e ->
     exists fs',
       openFileHandler P fs msg reply
         = Some (fs', set_ident a (set_result (ESUCCESS P) reply))) /\
  (cache fs !! FileSystemPath.full (parse P (parse_input P msg data)) = None ->
   loadEntry P (parse P (parse_input P msg data)) = None ->
   openFileHandler P fs msg reply
     = Some (log_lookup (parse P (parse_input P msg data)) fs,
             set_result (ENOSUCH P) reply)) /\
  (forall f formatted pe,
     memory fs !! parent_of fs (parse P (str_take (PATHLEN - 1) formatted)) = Some pe ->
     memory fs !! brk fs = None ->
     (String.length (str_take (PATHLEN - 1) formatted) < PATHLEN)%nat /\
     exists fs',
       insertFileCache P fs f formatted = Some (fs', brk fs) /\
       cache fs' !! FileSystemPath.full (parse P (str_take (PATHLEN - 1) formatted))
         = Some (brk fs) /\
       path <$> memory fs' !! brk fs
         = Some (Some (parse P (str_take (PATHLEN - 1) formatted)))).
Proof.
  intros Hcopy Hpos.
  rewrite (openFileHandler_copied P fs msg reply copied data Hcopy Hpos). cbv zeta.
  set (p := parse P (parse_input P msg data)).
  split; [|split; [|split]].
  - intros fs' reply' Hrun. unfold findFileCache, cacheHit in Hrun.
    destruct (cache fs !! FileSystemPath.full p) as [entry|] eqn:Hix; simpl in Hrun.
    + destruct (update entry _ fs) as [fs2|] eqn:Hu; simpl in Hrun; [|discriminate].
      injection Hrun as <- <-. left. split; [reflexivity|].
      apply update_Some in Hu as (e & _ & ->). exact Hix.
    + unfold lookupFile in Hrun. destruct (loadEntry P p) as [f|]; simpl in Hrun.
      * destruct (attach (log_lookup p fs) f p) as [[fs1 entry]|] eqn:Hatt;
          simpl in Hrun; [|discriminate].
        destruct (update entry _ fs1) as [fs2|] eqn:Hu; simpl in Hrun; [|discriminate].
        injection Hrun as <- <-. left. split; [reflexivity|].
        apply attach_Some in Hatt as (-> & pe & _ & ->).
        apply update_Some in Hu as (e & _ & ->). simpl. apply lookup_insert_eq.
      * injection Hrun as <- <-. right. split; reflexivity.
  - intros a e Hhit Ha. unfold findFileCache, cacheHit. rewrite Hhit. simpl.
    rewrite (update_live _ _ fs e Ha). simpl. by eexists.
  - intros Hmiss Hnone. unfold findFileCache, cacheHit. rewrite Hmiss.
    unfold lookupFile. by rewrite Hnone.
  - intros f formatted pe Hpar Hfresh. split.
    + pose proof (str_take_length (PATHLEN - 1) formatted). unfold PATHLEN in *. lia.
    + eexists. split; [unfold insertFileCache; apply (attach_spec fs f _ pe Hpar Hfresh)|].
      simpl. split; [apply lookup_insert_eq|].
      assert (Hne : parent_of fs (parse P (str_take (PATHLEN - 1) formatted)) ≠ brk fs)
        by congruence.
      rewrite lookup_insert_ne by exact Hne. by rewrite lookup_insert_eq.
Qed.

Lemma path_length_not_examined_witness :
  VMCopy_Read sample (from (open_msg 400)) (buffer (open_msg 400)) PATHLEN
    = (64, str_take PATHLEN long_path) /\
  0 < 64 /\
  (exists fs' reply',
     openFileHandler sample (FileSystem_new sample) (open_msg 400) (blank OpenFile)
       = Some (fs', reply') /\
     result reply' = ENOSUCH sample /\
     FileSystemPath.full <$> looked_up fs' = [(str_take PATHLEN long_path ++ sample_behind)%string]) /\
  (exists fs',
     insertFileCache sample (FileSystem_new sample) (bytes_file []) long_path
       = Some (fs', 2%N) /\
     cache fs' !! str_take (PATHLEN - 1) long_path = Some 2%N).
Proof.
  split; [reflexivity|]. split; [lia|].
  pose proof (path_length_not_examined sample (FileSystem_new sample) (open_msg 400)
                (blank OpenFile) 64 (str_take PATHLEN long_path) eq_refl eq_refl)
    as (_ & _ & Hmiss & Hins).
  split.
  - do 2 eexists. split; [apply Hmiss; by vm_compute|]. split; [reflexivity | by vm_compute].
  - destruct (Hins (bytes_file []) long_path (mkFileCache None None None [] 1) eq_refl eq_refl)
      as (_ & fs' & Hrun & Hidx & _).
    exists fs'. split; [exact Hrun | exact Hidx].
Defined.

(** ** C10: closing at count zero *)

(** Evictions alone never delete an entry whose count is not zero, nor
    change that count. *)
Lemma evictions_keep_nonzero (P : Platform) (rs : list Request) :
  forall fs fs' a n,
  steps P fs rs fs' ->
  (forall q, q ∈ rs -> exists start, q = Evict start) ->
  count_at fs a = Some n -> n <> 0 ->
  count_at fs' a = Some n.
Proof.
  induction rs as [|q rs IH]; intros fs fs' a n Hsteps Hev Ha Hn;
    inversion Hsteps as [|fs0 q0 fs1 rs0 fs2 Hstep Hrest]; subst; [exact Ha|].
  apply (IH fs1 fs' a n Hrest); [intros q' Hq'; apply Hev; by right| |exact Hn].
  destruct (Hev q) as [start ->]; [by left|].
  inversion Hstep as [| | |fs0 start0 fuel fs0' Hrun]; subst.
  apply clearFileCache_rel in Hrun.
  unfold count_at in *. destruct (memory fs !! a) as [e|] eqn:He; [|discriminate].
  injection Ha as <-.
  destruct (evict_rel_kept fs fs1 a e Hrun He Hn) as (e' & He' & S').
  rewrite He'. simpl. by rewrite (se_count _ _ S').
Qed.

(** C10, as stated, fails in its second half.  Entry 2 is cached with
    count 0; a close wraps its count to 4294967295.  The next open of its
    path increments the count, which wraps back to 0, and the eviction after
    it deletes the entry. *)
Lemma wrapped_count_returns_to_zero :
  exists fs2 fs3 fs4 fs5,
    cached_a = Some fs2 /\
    count_at fs2 2%N = Some 0 /\
    execs sample 0 fs2 [Close (close_msg 2)] = Some fs3 /\
    count_at fs3 2%N = Some (Size_max sample) /\
    Size_max sample = 4294967295 /\
    execs sample 0 fs3 [Open (open_msg 100)] = Some fs4 /\
    count_at fs4 2%N = Some 0 /\
    execs sample 2 fs4 [Evict None] = Some fs5 /\
    memory fs5 !! 2%N = None /\
    released fs5 = [2%N].
Proof.
  do 4 eexists. split; [vm_compute; reflexivity|]. split; [by vm_compute|].
  split; [vm_compute; reflexivity|]. split; [by vm_compute|]. split; [reflexivity|].
  split; [vm_compute; reflexivity|]. split; [by vm_compute|].
  split; [vm_compute; reflexivity|]. split; by vm_compute.
Qed.

(** C10, amended.  Closing an entry whose count is 0 leaves its count at the
    largest value of [Size], [2 ^ Size_bits - 1], which is not 0; evictions,
    however many and from wherever they start, then neither delete the entry
    nor change its count.  One increment of that count gives 0 again. *)
Theorem close_at_zero_wraps (P : Platform) (fs : FileSystem)
    (msg reply : FileSystemMessage) :
  count_at fs (ident msg) = Some 0 ->
  exists fs1,
    closeFileHandler P fs msg reply = Some (fs1, reply) /\
    count_at fs1 (ident msg) = Some (Size_max P) /\
    Size_max P = 2 ^ Size_bits P - 1 /\
    Size_max P <> 0 /\
    (forall rs fs2,
       steps P fs1 rs fs2 ->
       (forall q, q ∈ rs -> exists start, q = Evict start) ->
       count_at fs2 (ident msg) = Some (Size_max P)) /\
    Size_incr P (Size_max P) = 0.
Proof.
  intros Hzero. unfold count_at in Hzero.
  destruct (memory fs !! ident msg) as [e|] eqn:He; [|discriminate].
  injection Hzero as Hz.
  eexists. split; [by apply closeFileHandler_decrements|].
  assert (Hmax : count_at (set_memory (<[ident msg := set_count (Size_decr P (count e)) e]>
                                         (memory fs)) fs) (ident msg) = Some (Size_max P)).
  { unfold count_at. simpl. rewrite lookup_insert_eq. simpl.
    by rewrite Hz, Size_decr_zero. }
  split; [exact Hmax|]. split; [reflexivity|]. split; [apply Size_max_nonzero|].
  split; [|apply Size_incr_max].
  intros rs fs2 Hsteps Hev.
  apply (evictions_keep_nonzero P rs _ fs2 (ident msg) (Size_max P) Hsteps Hev Hmax).
  apply Size_max_nonzero.
Qed.

Lemma close_at_zero_wraps_witness :
  exists fs2 fs3 fs4,
    cached_a = Some fs2 /\
    count_at fs2 (ident (close_msg 2)) = Some 0 /\
    closeFileHandler sample fs2 (close_msg 2) (blank CloseFile)
      = Some (fs3, blank CloseFile) /\
    count_at fs3 2%N = Some (Size_max sample) /\
    Size_max sample = 4294967295 /\
    steps sample fs3 [Evict None; Evict (Some 2%N)] fs4 /\
    count_at fs4 2%N = Some (Size_max sample).
Proof.
  assert (H : exists fs2 fs3 fs4,
             cached_a = Some fs2 /\
             count_at fs2 (ident (close_msg 2)) = Some 0 /\
             closeFileHandler sample fs2 (close_msg 2) (blank CloseFile)
               = Some (fs3, blank CloseFile) /\
             execs sample 2 fs3 [Evict None; Evict (Some 2%N)] = Some fs4).
  { do 3 eexists. split; [vm_compute; reflexivity|]. split; [by vm_compute|].
    split; vm_compute; reflexivity. }
  destruct H as (fs2 & fs3 & fs4 & Hrun & Hzero & Hclose & Hevict).
  destruct (close_at_zero_wraps sample fs2 (close_msg 2) (blank CloseFile) Hzero)
    as (fs1 & Hclose1 & Hmax & _ & _ & Hev & _).
  assert (fs1 = fs3) by congruence. subst fs1.
  apply execs_steps in Hevict.
  exists fs2, fs3, fs4. split; [exact Hrun|]. split; [exact Hzero|].
  split; [exact Hclose|]. split; [exact Hmax|]. split; [reflexivity|].
  split; [exact Hevict|].
  apply (Hev _ fs4 Hevict). intros q Hq.
  repeat (apply elem_of_cons in Hq as [->|Hq]; [by eexists|]).
  by apply elem_of_nil in Hq.
Defined.

(** * Further properties of the code *)

(** ** Insertion and lookup *)

Lemma str_take_fits (n : nat) (s : string) :
  (String.length s <= n)%nat -> str_take n s = s.
Proof.
  revert s. induction n as [|n IH]; intros s Hlen.
  - destruct s; [reflexivity | simpl in Hlen; lia].
  - destruct s as [|c s]; [reflexivity|]. simpl in Hlen |- *. rewrite IH; [reflexivity | lia].
Qed.

(** X1.  [insertFileCache] followed by [findFileCache].  On a heap that has
    the parent entry the path selects and an unused allocation address, the
    insertion returns a new entry holding the file and the parsed path, with
    no children and the selected parent; the entry is appended at the tail
    of the parent's children; all three overloads of [findFileCache] find it
    under the path kept in the buffer, and under the formatted text itself
    when that has fewer than [PATHLEN] characters, so that it fits the
    buffer with its terminator; no other key of the index and no other entry
    of the heap changes. *)
Theorem insert_then_find (P : Platform) (fs : FileSystem) (f : File.t)
    (formatted : string) (pe : FileCache) :
  memory fs !! parent_of fs (parse P (str_take (PATHLEN - 1) formatted)) = Some pe ->
  memory fs !! brk fs = None ->
  exists fs',
    insertFileCache P fs f formatted = Some (fs', brk fs) /\
    (exists e,
       memory fs' !! brk fs = Some e /\
       file e = Some f /\
       path e = Some (parse P (str_take (PATHLEN - 1) formatted)) /\
       parent e = Some (parent_of fs (parse P (str_take (PATHLEN - 1) formatted))) /\
       childs e = []) /\
    childs_at fs' (parent_of fs (parse P (str_take (PATHLEN - 1) formatted)))
      = Some (childs pe ++ [brk fs]) /\
    findFileCache fs' (parse P (str_take (PATHLEN - 1) formatted)) = Some (brk fs) /\
    findFileCache_chars P fs' (str_take (PATHLEN - 1) formatted) = Some (brk fs) /\
    findFileCache_String P fs' (Some (str_take (PATHLEN - 1) formatted)) = Some (brk fs) /\
    ((String.length formatted < PATHLEN)%nat ->
       findFileCache_chars P fs' formatted = Some (brk fs)) /\
    (forall k, k <> FileSystemPath.full (parse P (str_take (PATHLEN - 1) formatted)) ->
       cache fs' !! k = cache fs !! k) /\
    (forall b, b <> brk fs ->
       b <> parent_of fs (parse P (str_take (PATHLEN - 1) formatted)) ->
       memory fs' !! b = memory fs !! b) /\
    root fs' = root fs.
Proof.
  intros Hpar Hfresh. set (p := parse P (str_take (PATHLEN - 1) formatted)) in *.
  assert (Hne : parent_of fs p ≠ brk fs) by congruence.
  eexists. split; [unfold insertFileCache; fold p; apply (attach_spec fs f p pe Hpar Hfresh)|].
  assert (Hfind : findFileCache
                    (mkFS (ipcHandlers fs) (root fs)
                       (<[FileSystemPath.full p := brk fs]> (cache fs))
                       (<[parent_of fs p := set_childs (childs pe ++ [brk fs]) pe]>
                          (<[brk fs := mkFileCache (Some f) (Some p) (Some (parent_of fs p)) [] 0]>
                             (memory fs)))
                       (brk fs + 1)%N (looked_up fs) (released fs) (copied_out fs)) p
                  = Some (brk fs)).
  { unfold findFileCache, cacheHit. simpl. apply lookup_insert_eq. }
  split.
  { eexists. split; [simpl; rewrite lookup_insert_ne by exact Hne; apply lookup_insert_eq|].
    by repeat split. }
  split; [unfold childs_at; simpl; by rewrite lookup_insert_eq|].
  split; [exact Hfind|]. split; [exact Hfind|]. split; [exact Hfind|].
  split.
  { intros Hfits. unfold findFileCache_chars.
    rewrite <- (str_take_fits (PATHLEN - 1) formatted) at 1; [exact Hfind|].
    unfold PATHLEN in *. lia. }
  split; [intros k Hk; simpl; by rewrite lookup_insert_ne|].
  split; [|reflexivity].
  intros b Hb Hbp. simpl. rewrite lookup_insert_ne by done. by rewrite lookup_insert_ne.
Qed.

Lemma insert_then_find_witness :
  count_at (FileSystem_new sample)
    (parent_of (FileSystem_new sample) (parse sample (str_take (PATHLEN - 1) "/a"))) = Some 1 /\
  memory (FileSystem_new sample) !! brk (FileSystem_new sample) = None /\
  exists fs',
    insertFileCache sample (FileSystem_new sample) (bytes_file []) "/a" = Some (fs', 2%N) /\
    parent_at fs' 2%N = Some (Some 1%N) /\
    childs_at fs' 2%N = Some [] /\
    childs_at fs' 1%N = Some [2%N] /\
    findFileCache_chars sample fs' "/a" = Some 2%N.
Proof.
  split; [by vm_compute|]. split; [by vm_compute|].
  destruct (insert_then_find sample (FileSystem_new sample) (bytes_file []) "/a"
              (mkFileCache None None None [] 1) eq_refl eq_refl)
    as (fs' & Hins & (e & He & _ & _ & Hpar & Hch) & Hchilds & _ & _ & _ & Hfound & _).
  change (brk (FileSystem_new sample)) with 2%N in He.
  exists fs'. split; [exact Hins|]. unfold parent_at, childs_at at 1. rewrite He. simpl.
  split; [by rewrite Hpar|]. split; [by rewrite Hch|].
  split; [exact Hchilds|]. apply Hfound. vm_compute. lia.
Defined.




(** ** Open and close *)

Lemma Size_decr_incr (P : Platform) (n : Z) :
  0 <= n < Size_modulus P -> Size_decr P (Size_incr P n) = n.
Proof.
  intros Hn. unfold Size_decr, Size_incr. rewrite Zminus_mod_idemp_l.
  replace (n + 1 - 1) with n by lia. by apply Z.mod_small.
Qed.

Lemma Size_incr_decr (P : Platform) (n : Z) :
  0 <= n < Size_modulus P -> Size_incr P (Size_decr P n) = n.
Proof.
  intros Hn. unfold Size_decr, Size_incr. rewrite Zplus_mod_idemp_l.
  replace (n - 1 + 1) with n by lia. by apply Z.mod_small.
Qed.

(** Two stores to one entry of which the second writes back what the heap
    held: the state is as it was. *)
Lemma store_restored (fs : FileSystem) (a : Address) (e e' : FileCache) :
  memory fs !! a = Some e ->
  set_memory (<[a := e]> (memory (set_memory (<[a := e']> (memory fs)) fs)))
             (set_memory (<[a := e']> (memory fs)) fs) = fs.
Proof.
  intros He. destruct fs as [t r ix h b lu rel co]. unfold set_memory. simpl in *.
  f_equal. rewrite insert_insert_eq. by apply insert_id.
Qed.

Lemma set_count_restored (e : FileCache) (n : Z) :
  set_count (count e) (set_count n e) = e.
Proof. by destruct e. Qed.

(** X3.  Open and close undo each other.  When the path of an open request
    is cached and the count of its entry is a value of [Size], the open
    answers with the entry's identity, and a close of that identity brings
    the filesystem back to the very state before the open; likewise a close
    followed by an open of the path, also at count 0, where the close wraps. *)
Theorem open_close_undo (P : Platform) (fs : FileSystem)
    (msg reply cmsg creply : FileSystemMessage) (copied : Z) (data : string)
    (a : Address) (e : FileCache) :
  VMCopy_Read P (from msg) (buffer msg) PATHLEN = (copied, data) ->
  0 < copied ->
  cache fs !! FileSystemPath.full (parse P (parse_input P msg data)) = Some a ->
  memory fs !! a = Some e ->
  0 <= count e < Size_modulus P ->
  ident cmsg = a ->
  (exists fs1,
     openFileHandler P fs msg reply
       = Some (fs1, set_ident a (set_result (ESUCCESS P) reply)) /\
     count_at fs1 a = Some (Size_incr P (count e)) /\
     closeFileHandler P fs1 cmsg creply = Some (fs, creply)) /\
  (exists fs1,
     closeFileHandler P fs cmsg creply = Some (fs1, creply) /\
     count_at fs1 a = Some (Size_decr P (count e)) /\
     openFileHandler P fs1 msg reply
       = Some (fs, set_ident a (set_result (ESUCCESS P) reply))).
Proof.
  intros Hcopy Hpos Hhit Ha Hrange <-. split.
  - set (e1 := set_count (Size_incr P (count e)) e).
    set (fs1 := set_memory (<[ident cmsg := e1]> (memory fs)) fs).
    assert (H1 : memory fs1 !! ident cmsg = Some e1) by (simpl; apply lookup_insert_eq).
    exists fs1.
    split; [by apply (openFileHandler_hit P fs msg reply copied data (ident cmsg) e)|].
    split; [unfold count_at; by rewrite H1|].
    rewrite (closeFileHandler_decrements P fs1 cmsg creply e1 H1).
    unfold e1 at 1 2. simpl count. rewrite (Size_decr_incr P (count e) Hrange).
    rewrite set_count_restored. unfold fs1. by rewrite (store_restored fs (ident cmsg) e e1 Ha).
  - set (e1 := set_count (Size_decr P (count e)) e).
    set (fs1 := set_memory (<[ident cmsg := e1]> (memory fs)) fs).
    assert (H1 : memory fs1 !! ident cmsg = Some e1) by (simpl; apply lookup_insert_eq).
    exists fs1.
    split; [by apply (closeFileHandler_decrements P fs cmsg creply e)|].
    split; [unfold count_at; by rewrite H1|].
    rewrite (openFileHandler_hit P fs1 msg reply copied data (ident cmsg) e1 Hcopy Hpos Hhit H1).
    unfold e1 at 1 2. simpl count. rewrite (Size_incr_decr P (count e) Hrange).
    rewrite set_count_restored. unfold fs1. by rewrite (store_restored fs (ident cmsg) e e1 Ha).
Qed.

Lemma open_close_undo_witness :
  exists fs fs1 fs2,
    cached_a = Some fs /\
    count_at fs 2%N = Some 0 /\
    openFileHandler sample fs (open_msg 100) (blank OpenFile)
      = Some (fs1, set_ident 2%N (set_result 0 (blank OpenFile))) /\
    count_at fs1 2%N = Some 1 /\
    closeFileHandler sample fs1 (close_msg 2) (blank CloseFile) = Some (fs, blank CloseFile) /\
    closeFileHandler sample fs (close_msg 2) (blank CloseFile) = Some (fs2, blank CloseFile) /\
    count_at fs2 2%N = Some 4294967295 /\
    openFileHandler sample fs2 (open_msg 100) (blank OpenFile)
      = Some (fs, set_ident 2%N (set_result 0 (blank OpenFile))).
Proof.
  assert (H : exists fs e,
             cached_a = Some fs /\ memory fs !! 2%N = Some e /\ count e = 0 /\
             cache fs !! FileSystemPath.full
                            (parse sample (parse_input sample (open_msg 100)
                               (str_take PATHLEN ("/a" ++ String Ascii.zero EmptyString))))
               = Some 2%N).
  { do 2 eexists. split; [vm_compute; reflexivity|]. split; [vm_compute; reflexivity|].
    split; [reflexivity | by vm_compute]. }
  destruct H as (fs & e & Hfs & He & Hz & Hhit).
  assert (Hrange : 0 <= count e < Size_modulus sample) by (rewrite Hz; by vm_compute).
  destruct (open_close_undo sample fs (open_msg 100) (blank OpenFile) (close_msg 2)
              (blank CloseFile) 64 (str_take PATHLEN ("/a" ++ String Ascii.zero EmptyString))
              2%N e eq_refl eq_refl Hhit He Hrange eq_refl)
    as [(fs1 & Hopen & Hc1 & Hclose) (fs2 & Hclose2 & Hc2 & Hopen2)].
  rewrite Hz in Hc1, Hc2.
  exists fs, fs1, fs2. split; [exact Hfs|].
  split; [unfold count_at; rewrite He; simpl; by rewrite Hz|].
  exact (conj Hopen (conj Hc1 (conj Hclose (conj Hclose2 (conj Hc2 Hopen2))))).
Defined.

(** ** Reading *)

(** X4.  A read changes nothing of the filesystem: root, index, heap (so
    every count), allocation frontier, handler table and the logs of lookups
    and deletions are as before, and of the reply only [result] and [size]
    are written.  When the file's [read] yields zero or a negative code, the
    state is untouched altogether (nothing is copied to the client) and the
    reply carries that very code with size 0. *)
Theorem read_leaves_filesystem (P : Platform) (fs fs' : FileSystem)
    (msg reply reply' : FileSystemMessage) :
  readFileHandler P fs msg reply = Some (fs', reply') ->
  (root fs' = root fs /\ cache fs' = cache fs /\ memory fs' = memory fs /\
   brk fs' = brk fs /\ ipcHandlers fs' = ipcHandlers fs /\
   looked_up fs' = looked_up fs /\ released fs' = released fs) /\
  (action reply' = action reply /\ from reply' = from reply /\
   procID reply' = procID reply /\ buffer reply' = buffer reply /\
   ident reply' = ident reply /\ offset reply' = offset reply) /\
  (forall fc f code buf,
     memory fs !! ident msg = Some fc -> file fc = Some f ->
     File.read f (if READ_BUFSIZE >? size msg then size msg else READ_BUFSIZE) (offset msg)
       = (code, buf) ->
     code <= 0 ->
     fs' = fs /\ result reply' = code /\ size reply' = 0).
Proof.
  intros Hrun. unfold readFileHandler in Hrun.
  destruct (memory fs !! ident msg) as [fc|] eqn:Hfc; simpl in Hrun; [|discriminate].
  destruct (file fc) as [f|] eqn:Hf; simpl in Hrun; [|discriminate].
  destruct (File.read f _ _) as [res buf] eqn:Hread.
  destruct (res >? 0) eqn:Hpos; injection Hrun as <- <-.
  - split; [by repeat split|]. split; [by repeat split|].
    intros fc' f' code buf' [= <-] Hf' Hread' Hcode.
    assert (f' = f) by congruence. subst f'. rewrite Hread in Hread'.
    injection Hread' as <- <-. lia.
  - split; [by repeat split|]. split; [by repeat split|].
    intros fc' f' code buf' [= <-] Hf' Hread' Hcode.
    assert (f' = f) by congruence. subst f'. rewrite Hread in Hread'.
    injection Hread' as <- <-. by repeat split.
Qed.

Lemma read_leaves_filesystem_witness :
  exists fs fs',
    cached_a_b = Some fs /\
    readFileHandler sample fs (read_msg 3 2 16) (blank ReadFile)
      = Some (fs', set_size 0 (set_result 0 (blank ReadFile))) /\
    memory fs' = memory fs /\ cache fs' = cache fs /\ fs' = fs.
Proof.
  assert (H : exists fs fs' fc f,
             cached_a_b = Some fs /\
             readFileHandler sample fs (read_msg 3 2 16) (blank ReadFile)
               = Some (fs', set_size 0 (set_result 0 (blank ReadFile))) /\
             memory fs !! ident (read_msg 3 2 16) = Some fc /\ file fc = Some f /\
             File.read f (if READ_BUFSIZE >? size (read_msg 3 2 16)
                          then size (read_msg 3 2 16) else READ_BUFSIZE)
                       (offset (read_msg 3 2 16)) = (0, [])).
  { do 4 eexists. split; [vm_compute; reflexivity|]. split; [vm_compute; reflexivity|].
    split; [vm_compute; reflexivity|]. split; [reflexivity|]. reflexivity. }
  destruct H as (fs & fs' & fc & f & Hfs & Hrun & Hfc & Hf & Hread).
  destruct (read_leaves_filesystem sample fs fs' (read_msg 3 2 16) (blank ReadFile) _ Hrun)
    as ((_ & Hix & Hmem & _) & _ & Hfail).
  destruct (Hfail fc f 0 [] Hfc Hf Hread) as (Hsame & _); [lia|].
  exists fs, fs'. by repeat split.
Defined.

(** A chain of evictions is one eviction relation. *)
Lemma evictions_rel (P : Platform) (rs : list Request) :
  forall fs fs',
  steps P fs rs fs' ->
  (forall q, q ∈ rs -> exists start, q = Evict start) ->
  evict_rel fs fs'.
Proof.
  induction rs as [|q rs IH]; intros fs fs' Hsteps Hev;
    inversion Hsteps as [|fs0 q0 fs1 rs0 fs2 Hstep Hrest]; subst; [apply evict_rel_refl|].
  apply evict_rel_trans with fs1.
  - destruct (Hev q) as [start ->]; [by left|].
    inversion Hstep as [| | |fs0 start0 fuel fs0' Hrun]; subst.
    by apply clearFileCache_rel in Hrun.
  - apply IH; [exact Hrest|]. intros q' Hq'. apply Hev. by right.
Qed.

(** X5.  An entry that is held stays readable across evictions.  If the
    entry a read request names has a nonzero count, then after any number of
    evictions, from wherever they start, the read gives the same reply and
    copies the same bytes to the client as it would have given before. *)
Theorem read_survives_eviction (P : Platform) (rs : list Request)
    (fs fs' fs1 : FileSystem) (msg reply reply1 : FileSystemMessage) (fc : FileCache) :
  steps P fs rs fs' ->
  (forall q, q ∈ rs -> exists start, q = Evict start) ->
  memory fs !! ident msg = Some fc ->
  count fc <> 0 ->
  readFileHandler P fs msg reply = Some (fs1, reply1) ->
  exists fs1',
    readFileHandler P fs' msg reply = Some (fs1', reply1) /\
    copied_out fs1' = copied_out fs1.
Proof.
  intros Hsteps Hev Hfc Hnz Hrun.
  pose proof (evictions_rel P rs fs fs' Hsteps Hev) as R.
  destruct (evict_rel_kept fs fs' (ident msg) fc R Hfc Hnz) as (fc' & Hfc' & S').
  unfold readFileHandler in *. rewrite Hfc in Hrun. rewrite Hfc'. simpl in *.
  rewrite (se_file _ _ S'). destruct (file fc) as [f|]; simpl in *; [|discriminate].
  destruct (File.read f _ _) as [res buf].
  destruct (res >? 0); injection Hrun as <- <-; eexists; (split; [reflexivity|]); simpl;
    by rewrite (er_copied _ _ R).
Qed.

Lemma read_survives_eviction_witness :
  exists fs fs' fs1 fs1' reply1 fc,
    execs sample 0 (default (FileSystem_new sample) cached_a_b) [Open (open_msg 200)]
      = Some fs /\
    steps sample fs [Evict None; Evict None] fs' /\
    memory fs !! 3%N = Some fc /\ count fc = 1 /\
    memory fs' !! 2%N = None /\
    readFileHandler sample fs (read_msg 3 0 16) (blank ReadFile) = Some (fs1, reply1) /\
    size reply1 = 2 /\
    readFileHandler sample fs' (read_msg 3 0 16) (blank ReadFile) = Some (fs1', reply1) /\
    copied_out fs1' = copied_out fs1.
Proof.
  assert (H : exists fs fs' fs1 reply1 fc,
             execs sample 0 (default (FileSystem_new sample) cached_a_b) [Open (open_msg 200)]
               = Some fs /\
             execs sample 3 fs [Evict None; Evict None] = Some fs' /\
             memory fs !! ident (read_msg 3 0 16) = Some fc /\ count fc = 1 /\
             memory fs' !! 2%N = None /\
             readFileHandler sample fs (read_msg 3 0 16) (blank ReadFile)
               = Some (fs1, reply1) /\
             size reply1 = 2).
  { do 5 eexists. split; [vm_compute; reflexivity|]. split; [vm_compute; reflexivity|].
    split; [vm_compute; reflexivity|]. split; [reflexivity|]. split; [by vm_compute|].
    split; [vm_compute; reflexivity | reflexivity]. }
  destruct H as (fs & fs' & fs1 & reply1 & fc & Hfs & Hev & Hfc & Hc & Hgone & Hrun & Hsz).
  apply execs_steps in Hev.
  assert (Hall : forall q, q ∈ [Evict None; Evict None] -> exists start, q = Evict start).
  { intros q Hq. repeat (apply elem_of_cons in Hq as [->|Hq]; [by eexists|]).
    by apply elem_of_nil in Hq. }
  assert (Hnz : count fc <> 0) by lia.
  destruct (read_survives_eviction sample _ fs fs' fs1 (read_msg 3 0 16) (blank ReadFile)
              reply1 fc Hev Hall Hfc Hnz Hrun) as (fs1' & Hrun' & Hcopy).
  exists fs, fs', fs1, fs1', reply1, fc.
  exact (conj Hfs (conj Hev (conj Hfc (conj Hc (conj Hgone (conj Hrun (conj Hsz
           (conj Hrun' Hcopy)))))))).
Defined.

(** ** Eviction *)

(** X6.  Eviction only shrinks the heap.  Whatever the heap looks like and
    wherever the walk starts, a completed [clearFileCache] leaves root,
    index, allocation frontier and handler table alone and only appends to
    the log of deletions; every entry present afterwards was present before
    with the same file, path, parent and count and with no new children; and
    every entry that is gone had count 0. *)
Theorem evict_only_shrinks (fuel : nat) (fs fs' : FileSystem) (start : option Address) :
  clearFileCache fuel fs start = Some fs' ->
  (root fs' = root fs /\ cache fs' = cache fs /\ brk fs' = brk fs /\
   ipcHandlers fs' = ipcHandlers fs /\ looked_up fs' = looked_up fs /\
   copied_out fs' = copied_out fs) /\
  (exists l, released fs' = released fs ++ l) /\
  (forall a e', memory fs' !! a = Some e' ->
     exists e, memory fs !! a = Some e /\
               file e' = file e /\ path e' = path e /\ parent e' = parent e /\
               count e' = count e /\ forall x, x ∈ childs e' -> x ∈ childs e) /\
  (forall a e, memory fs !! a = Some e -> memory fs' !! a = None -> count e = 0).
Proof.
  intros Hrun. apply clearFileCache_rel in Hrun as R.
  split; [by destruct R; repeat split|]. split; [apply (er_released _ _ R)|]. split.
  - intros a e' He'. destruct (er_back _ _ R a e' He') as (e & He & [F1 F2 F3 F4 F5]).
    exists e. by repeat split.
  - intros a e He Hgone. destruct (decide (count e = 0)) as [Hz|Hnz]; [exact Hz|].
    destruct (er_keep _ _ R a e He Hnz) as [e' He']. congruence.
Qed.

Lemma evict_only_shrinks_witness :
  exists fs fs',
    execs sample 0 (default (FileSystem_new sample) cached_a_b) [Open (open_msg 200)]
      = Some fs /\
    clearFileCache 3 fs None = Some fs' /\
    cache fs' = cache fs /\
    (exists l, released fs' = released fs ++ l) /\
    memory fs' !! 2%N = None /\
    count_at fs 2%N = Some 0.
Proof.
  assert (H : exists fs fs' e,
             execs sample 0 (default (FileSystem_new sample) cached_a_b) [Open (open_msg 200)]
               = Some fs /\
             clearFileCache 3 fs None = Some fs' /\
             memory fs !! 2%N = Some e /\ memory fs' !! 2%N = None).
  { do 3 eexists. split; [vm_compute; reflexivity|]. split; [vm_compute; reflexivity|].
    split; [vm_compute; reflexivity | by vm_compute]. }
  destruct H as (fs & fs' & e & Hfs & Hrun & He & Hgone).
  destruct (evict_only_shrinks 3 fs fs' None Hrun) as ((_ & Hix & _) & Hlog & _ & Hzero).
  exists fs, fs'. split; [exact Hfs|]. split; [exact Hrun|]. split; [exact Hix|].
  split; [exact Hlog|]. split; [exact Hgone|].
  unfold count_at. rewrite He. simpl. by rewrite (Hzero 2%N e He Hgone).
Defined.

(** [clearFileCache()] with its default argument is the walk from the root. *)
Lemma clearFileCache_from_root (fuel : nat) (fs : FileSystem) :
  clearFileCache fuel fs None = clearFileCache fuel fs (Some (root fs)).
Proof. by destruct fuel. Qed.

Lemma clearFileCache_held (fuel : nat) :
  forall fs par t,
    rep (memory fs) par t ->
    (forall x e, x ∈ addrs t -> memory fs !! x = Some e -> count e <> 0) ->
    (height t <= fuel)%nat ->
    clearFileCache fuel fs (Some (top t)) = Some fs.
Proof.
  induction fuel as [|fuel IH]; intros fs par [a kids] Hrep Hheld Hh;
    [rewrite height_Node in Hh; lia|].
  rewrite height_Node in Hh. rewrite addrs_Node in Hheld.
  inversion Hrep as [par0 a0 kids0 e He Hpe Hch Hkids]; subst.
  assert (Hloop : forEach (fun fs child => clearFileCache fuel fs (Some child)) fs (childs e)
                  = Some fs).
  { rewrite Hch.
    assert (Hh' : (height_list kids <= fuel)%nat) by lia.
    assert (Hheld' : forall x e0, x ∈ addrs_list kids -> memory fs !! x = Some e0 ->
                       count e0 <> 0)
      by (intros x e0 Hx; apply Hheld; by right).
    clear Hrep Hch Hh Hheld. induction kids as [|k ks IHks]; [reflexivity|].
    simpl in Hh', Hheld' |- *.
    rewrite (IH fs (Some a) k (Forall_inv Hkids)); [|intros x e0 Hx|lia].
    - simpl. apply IHks; [apply (Forall_inv_tail Hkids) | lia|].
      intros x e0 Hx. apply Hheld'. apply elem_of_app. by right.
    - apply Hheld'. apply elem_of_app. by left. }
  simpl top. rewrite (clearFileCache_fold fuel fs fs a e e He Hloop He).
  destruct (decide (count e = 0)) as [Hz|Hnz]; [|reflexivity].
  exfalso. apply (Hheld a e); [by left | exact He | exact Hz].
Qed.

(** X7.  Eviction of a tree whose entries are all held is a no-op: when
    every entry of a tree-shaped part of the heap has a nonzero count,
    [clearFileCache] on its top returns the state exactly as it was, for all
    fuel that covers the height, and so does the call with the default
    argument when the top is the root. *)
Theorem evict_held_tree_unchanged (fs : FileSystem) (par : option Address) (t : Shape)
    (fuel : nat) :
  rep (memory fs) par t ->
  (forall x e, x ∈ addrs t -> memory fs !! x = Some e -> count e <> 0) ->
  (height t <= fuel)%nat ->
  clearFileCache fuel fs (Some (top t)) = Some fs /\
  (top t = root fs -> clearFileCache fuel fs None = Some fs).
Proof.
  intros Hrep Hheld Hh.
  pose proof (clearFileCache_held fuel fs par t Hrep Hheld Hh) as Hrun.
  split; [exact Hrun|]. intros Htop. rewrite clearFileCache_from_root, <- Htop. exact Hrun.
Qed.

Lemma evict_held_tree_unchanged_witness :
  exists fs,
    execs sample 0 (default (FileSystem_new sample) cached_a_b)
      [Open (open_msg 100); Open (open_msg 200)] = Some fs /\
    rep (memory fs) None (Node 1%N [Node 2%N [Node 3%N []]]) /\
    count_at fs 1%N = Some 1 /\ count_at fs 2%N = Some 1 /\ count_at fs 3%N = Some 1 /\
    clearFileCache 3 fs (Some 1%N) = Some fs /\
    clearFileCache 3 fs None = Some fs.
Proof.
  assert (H : exists fs e1 e2 e3,
             execs sample 0 (default (FileSystem_new sample) cached_a_b)
               [Open (open_msg 100); Open (open_msg 200)] = Some fs /\
             root fs = 1%N /\
             memory fs !! 1%N = Some e1 /\ parent e1 = None /\ childs e1 = [2%N] /\
             count e1 = 1 /\
             memory fs !! 2%N = Some e2 /\ parent e2 = Some 1%N /\ childs e2 = [3%N] /\
             count e2 = 1 /\
             memory fs !! 3%N = Some e3 /\ parent e3 = Some 2%N /\ childs e3 = [] /\
             count e3 = 1).
  { do 4 eexists. split; [vm_compute; reflexivity|]. split; [reflexivity|].
    split; [vm_compute; reflexivity|]. do 3 (split; [reflexivity|]).
    split; [vm_compute; reflexivity|]. do 3 (split; [reflexivity|]).
    split; [vm_compute; reflexivity|]. by repeat split. }
  destruct H as (fs & e1 & e2 & e3 & Hfs & Hroot & H1 & P1 & C1 & N1 & H2 & P2 & C2 & N2 &
                 H3 & P3 & C3 & N3).
  assert (Hrep : rep (memory fs) None (Node 1%N [Node 2%N [Node 3%N []]])).
  { apply (rep_node (memory fs) None 1%N [Node 2%N [Node 3%N []]] e1 H1 P1 C1).
    constructor; [|constructor].
    apply (rep_node (memory fs) (Some 1%N) 2%N [Node 3%N []] e2 H2 P2 C2).
    constructor; [|constructor].
    apply (rep_node (memory fs) (Some 2%N) 3%N [] e3 H3 P3 C3). constructor. }
  assert (Hheld : forall x e, x ∈ addrs (Node 1%N [Node 2%N [Node 3%N []]]) ->
                    memory fs !! x = Some e -> count e <> 0).
  { intros x e Hx He. change (x ∈ [1%N; 2%N; 3%N]) in Hx.
    repeat (apply elem_of_cons in Hx as [->|Hx];
            [assert (count e = 1) by congruence; lia|]).
    by apply elem_of_nil in Hx. }
  destruct (evict_held_tree_unchanged fs None (Node 1%N [Node 2%N [Node 3%N []]]) 3
              Hrep Hheld (le_n 3)) as [Hrun Hdefault].
  exists fs. split; [exact Hfs|]. split; [exact Hrep|].
  unfold count_at. rewrite H1, H2, H3. simpl. rewrite N1, N2, N3.
  split; [reflexivity|]. split; [reflexivity|]. split; [reflexivity|].
  split; [exact Hrun|]. apply Hdefault. by rewrite Hroot.
Defined.

(** X8.  Eviction of a tree, in full.  On a tree-shaped part of the heap
    whose top has its parent outside the tree, [clearFileCache] completes,
    with one result for all fuel that covers the height.  It deletes exactly
    the entries of the tree whose count is zero; the log of deletions grows
    by those entries in post-order (the children of an entry, in the order
    of its [childs] list, before the entry); every other entry of the tree
    keeps its count.  Outside the tree one entry at most is written, the
    parent of the top: the top is taken out of its children list when the
    top is deleted, and it is as it was when the top is kept; every other
    entry outside the tree is untouched. *)
Theorem evict_tree_postorder (fs : FileSystem) (par : option Address) (t : Shape) :
  rep (memory fs) par t ->
  NoDup (addrs t) ->
  parent_outside (memory fs) par t ->
  exists fs',
    (forall fuel, (height t <= fuel)%nat ->
       clearFileCache fuel fs (Some (top t)) = Some fs') /\
    released fs' = released fs ++ evict_order (memory fs) t /\
    (forall x e, x ∈ addrs t -> memory fs !! x = Some e ->
       (count e = 0 -> memory fs' !! x = None) /\
       (count e <> 0 -> count_at fs' x = Some (count e))) /\
    (forall p pe e, par = Some p -> memory fs !! p = Some pe ->
       memory fs !! top t = Some e ->
       memory fs' !! p =
         Some (if decide (count e = 0)
               then set_childs (filter (fun x => x ≠ top t) (childs pe)) pe
               else pe)) /\
    (forall x, x ∉ addrs t -> Some x <> par -> memory fs' !! x = memory fs !! x).
Proof.
  intros Hrep Hnd Hpar.
  destruct (clearFileCache_tree (height t) fs par t Hrep Hnd Hpar (le_n _))
    as (fs' & Hrun & Hout & _).
  destruct (clearFileCache_tree_order (height t) fs par t fs' Hrep Hnd Hpar (le_n _) Hrun)
    as [Hlog Hdead].
  exists fs'. split.
  { intros fuel Hfuel. by apply (clearFileCache_fuel_mono (height t) fuel). }
  split; [exact Hlog|]. split; [|split; [|exact Hout]]; cycle 1.
  { intros p pe e -> Hpe He. destruct Hpar as [Hp _].
    by apply (clearFileCache_tree_parent (height t) fs fs' p pe e t). }
  intros x e Hx He. split; [by apply (Hdead x e)|].
  intros Hnz. apply clearFileCache_rel in Hrun.
  destruct (evict_rel_kept fs fs' x e Hrun He Hnz) as (e' & He' & S').
  unfold count_at. rewrite He'. simpl. by rewrite (se_count _ _ S').
Qed.

Lemma evict_tree_postorder_witness :
  exists fs fs',
    cached_a_b = Some fs /\
    rep (memory fs) (Some 1%N) (Node 2%N [Node 3%N []]) /\
    childs_at fs 1%N = Some [2%N] /\
    count_at fs 2%N = Some 0 /\ count_at fs 3%N = Some 0 /\
    clearFileCache 2 fs (Some 2%N) = Some fs' /\
    released fs' = released fs ++ [3%N; 2%N] /\
    memory fs' !! 2%N = None /\ memory fs' !! 3%N = None /\
    childs_at fs' 1%N = Some [] /\ count_at fs' 1%N = Some 1.
Proof.
  assert (H : exists fs e1 e2 e3,
             cached_a_b = Some fs /\
             memory fs !! 1%N = Some e1 /\ childs e1 = [2%N] /\ count e1 = 1 /\
             memory fs !! 2%N = Some e2 /\ parent e2 = Some 1%N /\ childs e2 = [3%N] /\
             count e2 = 0 /\
             memory fs !! 3%N = Some e3 /\ parent e3 = Some 2%N /\ childs e3 = [] /\
             count e3 = 0 /\
             evict_order (memory fs) (Node 2%N [Node 3%N []]) = [3%N; 2%N]).
  { do 4 eexists. split; [vm_compute; reflexivity|].
    split; [vm_compute; reflexivity|]. do 2 (split; [reflexivity|]).
    split; [vm_compute; reflexivity|]. do 3 (split; [reflexivity|]).
    split; [vm_compute; reflexivity|]. do 3 (split; [reflexivity|]). by vm_compute. }
  destruct H as (fs & e1 & e2 & e3 & Hfs & H1 & C1 & N1 & H2 & P2 & C2 & N2 &
                 H3 & P3 & C3 & N3 & Horder).
  assert (Hrep : rep (memory fs) (Some 1%N) (Node 2%N [Node 3%N []])).
  { apply (rep_node (memory fs) (Some 1%N) 2%N [Node 3%N []] e2 H2 P2 C2).
    constructor; [|constructor].
    apply (rep_node (memory fs) (Some 2%N) 3%N [] e3 H3 P3 C3). constructor. }
  assert (Hnd : NoDup (addrs (Node 2%N [Node 3%N []]))) by compute_done.
  assert (Hout : parent_outside (memory fs) (Some 1%N) (Node 2%N [Node 3%N []])).
  { split; [compute_done | by exists e1]. }
  destruct (evict_tree_postorder fs (Some 1%N) (Node 2%N [Node 3%N []]) Hrep Hnd Hout)
    as (fs' & Hrun & Hlog & Hin & Hparent & _).
  assert (M2 : 2%N ∈ addrs (Node 2%N [Node 3%N []])) by compute_done.
  assert (M3 : 3%N ∈ addrs (Node 2%N [Node 3%N []])) by compute_done.
  destruct (Hin 2%N e2 M2 H2) as [D2 _]. destruct (Hin 3%N e3 M3 H3) as [D3 _].
  pose proof (Hparent 1%N e1 e2 eq_refl H1 H2) as Hp.
  destruct (decide (count e2 = 0)) as [_|Hnz]; [|by destruct Hnz].
  rewrite Horder in Hlog.
  exists fs, fs'. split; [exact Hfs|]. split; [exact Hrep|].
  unfold count_at, childs_at. rewrite H1, H2, H3, Hp. simpl. rewrite C1, N1, N2, N3.
  split; [reflexivity|]. split; [reflexivity|]. split; [reflexivity|].
  split; [exact (Hrun 2%nat (le_n 2))|]. split; [exact Hlog|].
  split; [exact (D2 N2)|]. split; [exact (D3 N3)|]. split; reflexivity.
Defined.

(** ** The index over time *)

Lemma openFileHandler_keeps_bindings (P : Platform) (fs fs' : FileSystem)
    (msg reply reply' : FileSystemMessage) (k : string) (a : Address) :
  openFileHandler P fs msg reply = Some (fs', reply') ->
  cache fs !! k = Some a -> cache fs' !! k = Some a.
Proof.
  intros Hrun Hk.
  destruct (VMCopy_Read P (from msg) (buffer msg) PATHLEN) as [copied data] eqn:Hcopy.
  destruct (Z_le_gt_dec copied 0) as [Hle|Hgt].
  - rewrite (openFileHandler_copy_failed P fs msg reply copied data Hcopy Hle) in Hrun.
    by injection Hrun as <- <-.
  - rewrite (openFileHandler_copied P fs msg reply copied data Hcopy) in Hrun by lia.
    cbv zeta in Hrun. set (p := parse P (parse_input P msg data)) in *.
    assert (Hcount : forall fs1 entry,
              cache fs1 !! k = Some a ->
              (fs0 ← update entry (fun e => set_count (Size_incr P (count e)) e) fs1;
               Some (fs0, set_ident entry (set_result (ESUCCESS P) reply))) = Some (fs', reply') ->
              cache fs' !! k = Some a).
    { intros fs1 entry Hk1 Hupd.
      destruct (update entry _ fs1) as [fs2|] eqn:Hu; simpl in Hupd; [|discriminate].
      injection Hupd as <- <-. by apply update_Some in Hu as (e & _ & ->). }
    unfold findFileCache, cacheHit in Hrun.
    destruct (cache fs !! FileSystemPath.full p) as [entry|] eqn:Hix; simpl in Hrun.
    + by apply (Hcount fs entry).
    + unfold lookupFile in Hrun. destruct (loadEntry P p) as [f|]; simpl in Hrun.
      * destruct (attach (log_lookup p fs) f p) as [[fs1 entry]|] eqn:Hatt;
          simpl in Hrun; [|discriminate].
        apply (Hcount fs1 entry); [|exact Hrun].
        apply attach_Some in Hatt as (_ & pe & _ & ->). simpl.
        rewrite lookup_insert_ne; [exact Hk | congruence].
      * by injection Hrun as <- <-.
Qed.

Lemma step_keeps_bindings (P : Platform) (fs fs' : FileSystem) (q : Request)
    (k : string) (a : Address) :
  step P fs q fs' -> cache fs !! k = Some a -> cache fs' !! k = Some a.
Proof.
  intros Hstep Hk. destruct Hstep as [fs msg reply fs' reply' Hrun
    | fs msg reply fs' reply' Hrun | fs msg reply fs' reply' Hrun | fs start fuel fs' Hrun].
  - by apply (openFileHandler_keeps_bindings P fs fs' msg reply reply').
  - unfold readFileHandler in Hrun.
    destruct (memory fs !! ident msg) as [fc|]; simpl in Hrun; [|discriminate].
    destruct (file fc) as [f|]; simpl in Hrun; [|discriminate].
    destruct (File.read f _ _) as [res buf].
    by destruct (res >? 0); injection Hrun as <- <-.
  - unfold closeFileHandler in Hrun.
    destruct (update (ident msg) _ fs) as [fs1|] eqn:Hu; simpl in Hrun; [|discriminate].
    injection Hrun as <- <-. by apply update_Some in Hu as (e & _ & ->).
  - apply clearFileCache_rel in Hrun. by rewrite (er_cache _ _ Hrun).
Qed.

(** X9.  Index bindings are permanent.  No open, read, close or eviction
    removes a path from the index or binds it to another entry: a path bound
    to an address stays bound to that address in every later state, whether
    or not the entry at that address still exists. *)
Theorem index_bindings_permanent (P : Platform) (rs : list Request)
    (fs fs' : FileSystem) (k : string) (a : Address) :
  steps P fs rs fs' ->
  cache fs !! k = Some a ->
  cache fs' !! k = Some a.
Proof.
  intros Hsteps. induction Hsteps as [fs|fs q fs1 rs fs2 Hstep Hrest IH]; intros Hk;
    [exact Hk|].
  apply IH. by apply (step_keeps_bindings P fs fs1 q).
Qed.

Lemma index_bindings_permanent_witness :
  exists fs fs',
    cached_a = Some fs /\
    cache fs !! "/a"%string = Some 2%N /\
    steps sample fs
      [Open (open_msg 200); Open (open_msg 100); Read (read_msg 2 0 8);
       Close (close_msg 2); Evict None] fs' /\
    memory fs' !! 2%N = None /\
    cache fs' !! "/a"%string = Some 2%N.
Proof.
  assert (H : exists fs fs',
             cached_a = Some fs /\
             cache fs !! "/a"%string = Some 2%N /\
             execs sample 3 fs
               [Open (open_msg 200); Open (open_msg 100); Read (read_msg 2 0 8);
                Close (close_msg 2); Evict None] = Some fs' /\
             memory fs' !! 2%N = None).
  { do 2 eexists. split; [vm_compute; reflexivity|]. split; [by vm_compute|].
    split; [vm_compute; reflexivity | by vm_compute]. }
  destruct H as (fs & fs' & Hfs & Hk & Hrun & Hgone). apply execs_steps in Hrun.
  exists fs, fs'. split; [exact Hfs|]. split; [exact Hk|]. split; [exact Hrun|].
  split; [exact Hgone|].
  exact (index_bindings_permanent sample _ fs fs' "/a" 2%N Hrun Hk).
Defined.

(** ** Stale pointers *)

(** X10.  The handlers follow pointers without checking them.  Where no
    entry exists at an address, a read or a close of that identity and an
    open of a path that the index binds to that address go through the
    missing entry: each is a fault of the model rather than a reply with an
    error code.  Since eviction leaves deleted entries indexed, this is what
    reopening an evicted path amounts to. *)
Theorem stale_entry_dereferenced (P : Platform) (fs : FileSystem)
    (msg reply : FileSystemMessage) (a : Address) :
  memory fs !! a = None ->
  (ident msg = a ->
     readFileHandler P fs msg reply = None /\ closeFileHandler P fs msg reply = None) /\
  (forall copied data,
     VMCopy_Read P (from msg) (buffer msg) PATHLEN = (copied, data) ->
     0 < copied ->
     cache fs !! FileSystemPath.full (parse P (parse_input P msg data)) = Some a ->
     openFileHandler P fs msg reply = None).
Proof.
  intros Hgone. split.
  - intros <-. unfold readFileHandler, closeFileHandler, update. by rewrite Hgone.
  - intros copied data Hcopy Hpos Hhit.
    rewrite (openFileHandler_copied P fs msg reply copied data Hcopy Hpos). cbv zeta.
    unfold findFileCache, cacheHit. rewrite Hhit. simpl. unfold update. by rewrite Hgone.
Qed.

Lemma stale_entry_dereferenced_witness :
  exists fs fs',
    cached_a = Some fs /\
    clearFileCache 2 fs None = Some fs' /\
    memory fs' !! 2%N = None /\
    cache fs' !! "/a"%string = Some 2%N /\
    openFileHandler sample fs' (open_msg 100) (blank OpenFile) = None /\
    readFileHandler sample fs' (read_msg 2 0 8) (blank ReadFile) = None /\
    closeFileHandler sample fs' (close_msg 2) (blank CloseFile) = None.
Proof.
  assert (H : exists fs fs',
             cached_a = Some fs /\
             clearFileCache 2 fs None = Some fs' /\
             memory fs' !! 2%N = None /\
             cache fs' !! "/a"%string = Some 2%N).
  { do 2 eexists. split; [vm_compute; reflexivity|]. split; [vm_compute; reflexivity|].
    split; by vm_compute. }
  destruct H as (fs & fs' & Hfs & Hrun & Hgone & Hk).
  destruct (stale_entry_dereferenced sample fs' (open_msg 100) (blank OpenFile) 2%N Hgone)
    as [_ Hopen].
  destruct (stale_entry_dereferenced sample fs' (read_msg 2 0 8) (blank ReadFile) 2%N Hgone)
    as [Hread _].
  destruct (stale_entry_dereferenced sample fs' (close_msg 2) (blank CloseFile) 2%N Hgone)
    as [Hclose _].
  exists fs, fs'. split; [exact Hfs|]. split; [exact Hrun|]. split; [exact Hgone|].
  split; [exact Hk|].
  split; [exact (Hopen 64 (str_take PATHLEN ("/a" ++ String Ascii.zero EmptyString))
                   eq_refl eq_refl Hk)|].
  split; [exact (proj1 (Hread eq_refl)) | exact (proj2 (Hclose eq_refl))].
Defined.

(** ** The tree that eviction leaves *)

Lemma top_in_addrs (t : Shape) : top t ∈ addrs t.
Proof. destruct t as [a kids]. rewrite addrs_Node. by left. Qed.

Lemma tops_in_addrs_list (ks : list Shape) (x : Address) :
  x ∈ map top ks -> x ∈ addrs_list ks.
Proof.
  induction ks as [|k ks IH]; intros Hx; [by apply elem_of_nil in Hx|].
  simpl in *. apply elem_of_app. apply elem_of_cons in Hx as [->|Hx].
  - left. apply top_in_addrs.
  - right. by apply IH.
Qed.

Lemma prune_Node (h : gmap Address FileCache) (a : Address) (kids : list Shape) :
  prune h (Node a kids) = Node a (prune_list h kids).
Proof.
  simpl. f_equal. induction kids as [|k ks IH]; [reflexivity|]. simpl. by rewrite IH.
Qed.

Lemma top_prune (h : gmap Address FileCache) (t : Shape) : top (prune h t) = top t.
Proof. by destruct t. Qed.

Lemma addrs_prune (h : gmap Address FileCache) (t : Shape) (x : Address) :
  x ∈ addrs (prune h t) -> x ∈ addrs t.
Proof.
  revert x. induction t as [a kids IH] using Shape_nested_ind. intros x.
  rewrite prune_Node, !addrs_Node. intros Hx.
  apply elem_of_cons in Hx as [->|Hx]; [by left|]. right.
  induction kids as [|k ks IHks]; [exact Hx|]. simpl in *.
  apply elem_of_app. destruct (is_held h (top k)).
  - simpl in Hx. apply elem_of_app in Hx as [Hx|Hx].
    + left. by apply (Forall_inv IH).
    + right. by apply IHks; [apply (Forall_inv_tail IH)|].
  - right. by apply IHks; [apply (Forall_inv_tail IH)|].
Qed.

Lemma is_held_frame (h h' : gmap Address FileCache) (a : Address) :
  h' !! a = h !! a -> is_held h' a = is_held h a.
Proof. intros H. unfold is_held. by rewrite H. Qed.

Lemma prune_frame (h h' : gmap Address FileCache) (t : Shape) :
  (forall x, x ∈ addrs t -> h' !! x = h !! x) ->
  prune h' t = prune h t.
Proof.
  induction t as [a kids IH] using Shape_nested_ind. intros Hsame.
  rewrite !prune_Node. f_equal. rewrite addrs_Node in Hsame.
  assert (Hsame' : forall x, x ∈ addrs_list kids -> h' !! x = h !! x)
    by (intros x Hx; apply Hsame; by right).
  clear Hsame. induction kids as [|k ks IHks]; [reflexivity|]. simpl in *.
  rewrite (is_held_frame h h' (top k))
    by (apply Hsame'; apply elem_of_app; left; apply top_in_addrs).
  rewrite (Forall_inv IH) by (intros x Hx; apply Hsame'; apply elem_of_app; by left).
  rewrite IHks; [reflexivity | apply (Forall_inv_tail IH)|].
  intros x Hx. apply Hsame'. apply elem_of_app. by right.
Qed.

Lemma prune_list_frame (h h' : gmap Address FileCache) (ks : list Shape) :
  (forall x, x ∈ addrs_list ks -> h' !! x = h !! x) ->
  prune_list h' ks = prune_list h ks.
Proof.
  induction ks as [|k ks IH]; intros Hsame; [reflexivity|]. simpl in *.
  rewrite (is_held_frame h h' (top k))
    by (apply Hsame; apply elem_of_app; left; apply top_in_addrs).
  rewrite (prune_frame h h' k) by (intros x Hx; apply Hsame; apply elem_of_app; by left).
  rewrite IH; [reflexivity|]. intros x Hx. apply Hsame. apply elem_of_app. by right.
Qed.

Lemma height_prune (h : gmap Address FileCache) (t : Shape) :
  (height (prune h t) <= height t)%nat.
Proof.
  induction t as [a kids IH] using Shape_nested_ind.
  rewrite prune_Node, !height_Node. apply le_n_S.
  induction kids as [|k ks IHks]; [simpl; lia|]. cbn [prune_list height_list].
  pose proof (Forall_inv IH) as Hk. cbv beta in Hk. specialize (IHks (Forall_inv_tail IH)).
  destruct (is_held h (top k)); cbn [height_list]; lia.
Qed.

(** Every entry of the pruned shape of a tree with a held top is held. *)
Lemma prune_held (h : gmap Address FileCache) (t : Shape) :
  is_held h (top t) = true ->
  forall x, x ∈ addrs (prune h t) -> is_held h x = true.
Proof.
  induction t as [a kids IH] using Shape_nested_ind. intros Htop x.
  rewrite prune_Node, addrs_Node. intros Hx.
  apply elem_of_cons in Hx as [->|Hx]; [exact Htop|].
  induction kids as [|k ks IHks]; [by apply elem_of_nil in Hx|]. simpl in Hx.
  destruct (is_held h (top k)) eqn:Hk.
  - simpl in Hx. apply elem_of_app in Hx as [Hx|Hx].
    + by apply (Forall_inv IH).
    + apply IHks; first [exact Hx | apply (Forall_inv_tail IH) | assumption].
  - apply IHks; first [exact Hx | apply (Forall_inv_tail IH) | assumption].
Qed.

Lemma filter_ne_absent (a : Address) (l : list Address) :
  a ∉ l -> filter (fun x => x ≠ a) l = l.
Proof.
  induction l as [|y l IH]; intros Ha; [reflexivity|].
  apply not_elem_of_cons in Ha as [Hne Ha].
  rewrite filter_cons_True by (by intros ->). by rewrite IH.
Qed.

Lemma filter_ne_middle (a : Address) (pre post : list Address) :
  a ∉ pre -> a ∉ post ->
  filter (fun x => x ≠ a) (pre ++ a :: post) = pre ++ post.
Proof.
  intros Hpre Hpost. rewrite filter_app, filter_cons_False by (by intros ?).
  by rewrite !filter_ne_absent.
Qed.

Lemma set_childs_own (e : FileCache) (l : list Address) :
  childs e = l -> set_childs l e = e.
Proof. intros <-. by destruct e. Qed.

(** The loop over the children of the entry at [a], whose children list is
    [pre] followed by the tops of [kids]: afterwards the list is [pre]
    followed by the tops of the children that are held, and the pruned
    subtrees of those are in the heap. *)
Lemma evict_loop_tree_shape (fuel : nat) (a : Address) :
  (forall fs par t fs',
     rep (memory fs) par t -> NoDup (addrs t) -> parent_outside (memory fs) par t ->
     (height t <= fuel)%nat ->
     clearFileCache fuel fs (Some (top t)) = Some fs' ->
     (is_held (memory fs) (top t) = true -> rep (memory fs') par (prune (memory fs) t)) /\
     (forall p pe, par = Some p -> memory fs !! p = Some pe ->
        memory fs' !! p =
          Some (if is_held (memory fs) (top t) then pe
                else set_childs (filter (fun x => x ≠ top t) (childs pe)) pe))) ->
  forall kids fs fs1 pre ea,
    Forall (rep (memory fs) (Some a)) kids ->
    NoDup (addrs_list kids) -> a ∉ addrs_list kids ->
    memory fs !! a = Some ea ->
    childs ea = pre ++ map top kids ->
    (forall x, x ∈ pre -> x ∉ addrs_list kids) ->
    (height_list kids <= fuel)%nat ->
    forEach (fun fs child => clearFileCache fuel fs (Some child)) fs (map top kids)
      = Some fs1 ->
    memory fs1 !! a = Some (set_childs (pre ++ map top (prune_list (memory fs) kids)) ea) /\
    Forall (rep (memory fs1) (Some a)) (prune_list (memory fs) kids).
Proof.
  intros IHfuel. induction kids as [|k ks IH];
    intros fs fs1 pre ea Hrep Hnd Ha Hea Hch Hpre Hh Hloop.
  - injection Hloop as <-. simpl in *. split; [|constructor].
    rewrite app_nil_r in *. by rewrite (set_childs_own ea pre Hch).
  - simpl in Hnd, Ha, Hh, Hloop, Hch. apply NoDup_app in Hnd as (Hndk & Hdisj & Hndks).
    apply not_elem_of_app in Ha as [Hak Haks].
    destruct (clearFileCache fuel fs (Some (top k))) as [s1|] eqn:Hrun; simpl in Hloop;
      [|discriminate].
    assert (Hlive : is_Some (memory fs !! a)) by (by exists ea).
    destruct (clearFileCache_tree fuel fs (Some a) k (Forall_inv Hrep) Hndk (conj Hak Hlive))
      as (s1' & Hrun' & Hframe1 & _); [lia|].
    assert (s1' = s1) by congruence. subst s1'.
    destruct (IHfuel fs (Some a) k s1 (Forall_inv Hrep) Hndk (conj Hak Hlive)) as [Hi Hii];
      [lia | exact Hrun|].
    specialize (Hii a ea eq_refl Hea).
    assert (Hsame : forall x, x ∈ addrs_list ks -> memory s1 !! x = memory fs !! x).
    { intros x Hx. apply Hframe1; [intros Hxk; by apply (Hdisj x Hxk)|].
      intros [= ->]. by apply Haks. }
    pose proof (rep_kids_frame _ _ a ks (Forall_inv_tail Hrep) Hsame) as Hrep1.
    assert (Hlive1 : is_Some (memory s1 !! a)) by (rewrite Hii; by eexists).
    destruct (evict_loop_tree fuel a (clearFileCache_tree fuel) ks s1 Hrep1 Hndks Haks Hlive1)
      as (fs1' & Hloop' & Hframe2 & _); [lia|].
    assert (fs1' = fs1) by congruence. subst fs1'.
    assert (Htop_pre : top k ∉ pre).
    { intros Hin. apply (Hpre _ Hin). apply elem_of_app. left. apply top_in_addrs. }
    assert (Htop_ks : top k ∉ map top ks).
    { intros Hin. apply (Hdisj (top k)); [apply top_in_addrs | by apply tops_in_addrs_list]. }
    simpl prune_list. rewrite <- (prune_list_frame (memory fs) (memory s1) ks Hsame).
    destruct (is_held (memory fs) (top k)) eqn:Hheld.
    + destruct (IH s1 fs1 (pre ++ [top k]) ea Hrep1 Hndks Haks Hii) as [Hres Hkept];
        [by rewrite <- app_assoc | | lia | exact Hloop |].
      { intros x Hx. apply elem_of_app in Hx as [Hx|Hx].
        - intros Hin. apply (Hpre x Hx). apply elem_of_app. by right.
        - apply list_elem_of_singleton in Hx as ->. intros Hin.
          apply (Hdisj (top k)); [apply top_in_addrs | exact Hin]. }
      split.
      * rewrite Hres. simpl. rewrite top_prune. by rewrite <- app_assoc.
      * constructor; [|exact Hkept].
        apply (rep_frame (memory s1)); [by apply Hi|].
        intros x Hx. apply addrs_prune in Hx. apply Hframe2.
        -- intros Hin. by apply (Hdisj x Hx).
        -- by intros [= ->].
    + rewrite Hch, (filter_ne_middle (top k) pre (map top ks) Htop_pre Htop_ks) in Hii.
      destruct (IH s1 fs1 pre _ Hrep1 Hndks Haks Hii) as [Hres Hkept];
        [reflexivity | | lia | exact Hloop |].
      { intros x Hx Hin. apply (Hpre x Hx). apply elem_of_app. by right. }
      split; [exact Hres | exact Hkept].
Qed.

Lemma is_held_count (h : gmap Address FileCache) (a : Address) (e : FileCache) :
  h !! a = Some e -> (is_held h a = true <-> count e <> 0).
Proof.
  intros He. unfold is_held. rewrite He. destruct (count e =? 0) eqn:Hc; simpl.
  - apply Z.eqb_eq in Hc. split; [discriminate | contradiction].
  - apply Z.eqb_neq in Hc. split; [by intros _ | reflexivity].
Qed.

(** What a completed run leaves of a subtree and of the parent of its top. *)
Lemma clearFileCache_tree_shape (fuel : nat) :
  forall fs par t fs',
    rep (memory fs) par t -> NoDup (addrs t) -> parent_outside (memory fs) par t ->
    (height t <= fuel)%nat ->
    clearFileCache fuel fs (Some (top t)) = Some fs' ->
    (is_held (memory fs) (top t) = true -> rep (memory fs') par (prune (memory fs) t)) /\
    (forall p pe, par = Some p -> memory fs !! p = Some pe ->
       memory fs' !! p =
         Some (if is_held (memory fs) (top t) then pe
               else set_childs (filter (fun x => x ≠ top t) (childs pe)) pe)).
Proof.
  induction fuel as [|fuel IHfuel]; intros fs par [a kids] fs' Hrep Hnd Hpar Hh Hrun;
    [discriminate|].
  rewrite height_Node in Hh. rewrite addrs_Node in Hnd. rewrite prune_Node.
  apply NoDup_cons in Hnd as [Ha Hnd].
  inversion Hrep as [par0 a0 kids0 e He Hpe Hch Hkids]; subst.
  simpl top in *.
  apply clearFileCache_unfold in Hrun as (e0 & fs1 & e1 & He0 & Hloop & He1 & Hend).
  cbv zeta in *. assert (e0 = e) by congruence. subst e0. rewrite Hch in Hloop.
  destruct (evict_loop_tree_shape fuel a IHfuel kids fs fs1 [] e Hkids Hnd Ha He Hch)
    as [Hself Hkept]; [by intros x Hx%elem_of_nil | lia | exact Hloop|].
  simpl in Hself. rewrite Hself in He1. injection He1 as <-.
  destruct (evict_loop_tree fuel a (clearFileCache_tree fuel) kids fs Hkids Hnd Ha
              (ex_intro _ e He)) as (fs1' & Hloop' & Hframe & _); [lia|].
  assert (fs1' = fs1) by congruence. subst fs1'.
  assert (Hparent : forall p pe, parent e = Some p -> memory fs !! p = Some pe ->
                      p <> a /\ memory fs1 !! p = Some pe).
  { intros p pe Hp Hpe. rewrite Hp in Hpar. destruct Hpar as [Hout _].
    rewrite addrs_Node in Hout. apply not_elem_of_cons in Hout as [Hpa Hout].
    split; [exact Hpa|]. rewrite Hframe; [exact Hpe | exact Hout | by intros [= ->]]. }
  pose proof (is_held_count (memory fs) a e He) as Hheld.
  simpl in Hend. destruct Hend as [[Hnz ->]|(Hz & fs2 & Hdet & ->)].
  - apply Hheld in Hnz as Htrue. rewrite Htrue. split.
    + intros _. by apply (rep_node _ _ _ _ _ Hself).
    + intros p pe Hp Hpe. by destruct (Hparent p pe Hp Hpe).
  - assert (Hfalse : is_held (memory fs) a = false).
    { destruct (is_held (memory fs) a); [|reflexivity]. by destruct (proj1 Hheld eq_refl). }
    rewrite Hfalse. split; [discriminate|].
    intros p pe Hp Hpe. destruct (Hparent p pe Hp Hpe) as [Hpa Hpe1].
    rewrite Hp in Hdet. rewrite (update_live _ _ fs1 pe Hpe1) in Hdet. injection Hdet as <-.
    simpl. rewrite lookup_delete_ne by (by intros ->). by rewrite lookup_insert_eq.
Qed.

(** X11.  Eviction leaves a tree, and a second eviction changes nothing.
    On a tree-shaped part of the heap whose top is held, [clearFileCache]
    leaves exactly the pruned tree: every entry that is kept lists those of
    its children that are held, in their old order, and the subtrees below
    children with count 0 are gone.  Every entry of what is left is held, so
    running [clearFileCache] again returns the state unchanged; and the
    parent of the top, if there is one, is as it was. *)
Theorem evict_leaves_pruned_tree (fs : FileSystem) (par : option Address) (t : Shape) :
  rep (memory fs) par t ->
  NoDup (addrs t) ->
  parent_outside (memory fs) par t ->
  is_held (memory fs) (top t) = true ->
  exists fs',
    (forall fuel, (height t <= fuel)%nat ->
       clearFileCache fuel fs (Some (top t)) = Some fs' /\
       clearFileCache fuel fs' (Some (top t)) = Some fs') /\
    rep (memory fs') par (prune (memory fs) t) /\
    (forall x, x ∈ addrs (prune (memory fs) t) -> is_held (memory fs') x = true) /\
    (forall p, par = Some p -> memory fs' !! p = memory fs !! p).
Proof.
  intros Hrep Hnd Hpar Htop.
  destruct (clearFileCache_tree (height t) fs par t Hrep Hnd Hpar (le_n _))
    as (fs' & Hrun & _).
  destruct (clearFileCache_tree_shape (height t) fs par t fs' Hrep Hnd Hpar (le_n _) Hrun)
    as [Hshape Hparent].
  specialize (Hshape Htop). rewrite Htop in Hparent.
  pose proof (clearFileCache_rel _ _ _ _ Hrun) as R.
  assert (Hheld : forall x, x ∈ addrs (prune (memory fs) t) -> is_held (memory fs') x = true).
  { intros x Hx. pose proof (prune_held (memory fs) t Htop x Hx) as Hx0.
    destruct (memory fs !! x) as [e|] eqn:He;
      [|unfold is_held in Hx0; rewrite He in Hx0; discriminate].
    pose proof (proj1 (is_held_count (memory fs) x e He) Hx0) as Hnz.
    destruct (evict_rel_kept fs fs' x e R He Hnz) as (e' & He' & S').
    apply (is_held_count (memory fs') x e' He'). by rewrite (se_count _ _ S'). }
  exists fs'. split; [|split; [exact Hshape|split; [exact Hheld|]]].
  - intros fuel Hfuel. split; [by apply (clearFileCache_fuel_mono (height t) fuel)|].
    rewrite <- (top_prune (memory fs) t).
    apply (clearFileCache_held fuel fs' par (prune (memory fs) t) Hshape).
    + intros x e' Hx He'. apply (is_held_count (memory fs') x e' He'). by apply Hheld.
    + pose proof (height_prune (memory fs) t). lia.
  - intros p Hp. subst par. destruct Hpar as [Hout [pe Hpe]].
    rewrite (Hparent p pe eq_refl Hpe). by rewrite Hpe.
Qed.

Lemma evict_leaves_pruned_tree_witness :
  exists fs fs',
    siblings_a_held = Some fs /\
    rep (memory fs) None (Node 1%N [Node 2%N []; Node 3%N []; Node 4%N []]) /\
    count_at fs 1%N = Some 1 /\ count_at fs 2%N = Some 0 /\
    count_at fs 3%N = Some 1 /\ count_at fs 4%N = Some 0 /\
    clearFileCache 2 fs (Some 1%N) = Some fs' /\
    clearFileCache 2 fs' (Some 1%N) = Some fs' /\
    rep (memory fs') None (Node 1%N [Node 3%N []]) /\
    childs_at fs' 1%N = Some [3%N] /\
    released fs' = [2%N; 4%N].
Proof.
  assert (H : exists fs e1 e2 e3 e4,
             siblings_a_held = Some fs /\
             memory fs !! 1%N = Some e1 /\ parent e1 = None /\
             childs e1 = [2%N; 3%N; 4%N] /\ count e1 = 1 /\
             memory fs !! 2%N = Some e2 /\ parent e2 = Some 1%N /\ childs e2 = [] /\
             count e2 = 0 /\
             memory fs !! 3%N = Some e3 /\ parent e3 = Some 1%N /\ childs e3 = [] /\
             count e3 = 1 /\
             memory fs !! 4%N = Some e4 /\ parent e4 = Some 1%N /\ childs e4 = [] /\
             count e4 = 0 /\
             released fs = [] /\
             is_held (memory fs) 1%N = true /\
             prune (memory fs) (Node 1%N [Node 2%N []; Node 3%N []; Node 4%N []])
               = Node 1%N [Node 3%N []] /\
             evict_order (memory fs) (Node 1%N [Node 2%N []; Node 3%N []; Node 4%N []])
               = [2%N; 4%N]).
  { do 5 eexists. split; [vm_compute; reflexivity|].
    split; [vm_compute; reflexivity|]. do 3 (split; [reflexivity|]).
    split; [vm_compute; reflexivity|]. do 3 (split; [reflexivity|]).
    split; [vm_compute; reflexivity|]. do 3 (split; [reflexivity|]).
    split; [vm_compute; reflexivity|]. do 3 (split; [reflexivity|]).
    split; [reflexivity|]. split; [by vm_compute|]. split; by vm_compute. }
  destruct H as (fs & e1 & e2 & e3 & e4 & Hfs & H1 & P1 & C1 & N1 & H2 & P2 & C2 & N2 &
                 H3 & P3 & C3 & N3 & H4 & P4 & C4 & N4 & Hrel & Htop & Hprune & Horder).
  set (t := Node 1%N [Node 2%N []; Node 3%N []; Node 4%N []]) in *.
  assert (Hrep : rep (memory fs) None t).
  { apply (rep_node (memory fs) None 1%N [Node 2%N []; Node 3%N []; Node 4%N []] e1 H1 P1 C1).
    repeat constructor.
    - apply (rep_node (memory fs) (Some 1%N) 2%N [] e2 H2 P2 C2). constructor.
    - apply (rep_node (memory fs) (Some 1%N) 3%N [] e3 H3 P3 C3). constructor.
    - apply (rep_node (memory fs) (Some 1%N) 4%N [] e4 H4 P4 C4). constructor. }
  assert (Hnd : NoDup (addrs t)) by compute_done.
  destruct (evict_leaves_pruned_tree fs None t Hrep Hnd I Htop)
    as (fs' & Hrun & Hshape & _ & _).
  destruct (Hrun 2%nat (le_n 2)) as [Hrun1 Hrun2].
  destruct (clearFileCache_tree_order 2 fs None t fs' Hrep Hnd I (le_n 2) Hrun1) as [Hlog _].
  rewrite Hprune in Hshape. rewrite Horder, Hrel in Hlog.
  assert (Hchilds : childs_at fs' 1%N = Some [3%N]).
  { inversion Hshape as [par0 a0 kids0 e He Hpe Hch Hkids]; subst.
    unfold childs_at. rewrite He. simpl. by rewrite Hch. }
  exists fs, fs'. split; [exact Hfs|]. split; [exact Hrep|].
  unfold count_at at 1 2 3 4. rewrite H1, H2, H3, H4. simpl. rewrite N1, N2, N3, N4.
  do 4 (split; [reflexivity|]).
  exact (conj Hrun1 (conj Hrun2 (conj Hshape (conj Hchilds Hlog)))).
Defined.

(** ** Insertion keeps the tree *)

Lemma graft_Node (par new a : Address) (kids : list Shape) :
  graft par new (Node a kids) =
    Node a (graft_list par new kids ++ if decide (a = par) then [Node new []] else []).
Proof.
  simpl. f_equal. f_equal. induction kids as [|k ks IH]; [reflexivity|]. simpl. by rewrite IH.
Qed.

Lemma top_graft (par new : Address) (t : Shape) : top (graft par new t) = top t.
Proof. by destruct t. Qed.

Lemma map_top_graft_list (par new : Address) (ks : list Shape) :
  map top (graft_list par new ks) = map top ks.
Proof.
  induction ks as [|k ks IH]; [reflexivity|]. simpl. by rewrite top_graft, IH.
Qed.

Lemma addrs_list_app (l1 l2 : list Shape) :
  addrs_list (l1 ++ l2) = addrs_list l1 ++ addrs_list l2.
Proof.
  induction l1 as [|k l1 IH]; [reflexivity|]. simpl. by rewrite IH, app_assoc.
Qed.

(** A shape that does not hold the parent is left as it is. *)
Lemma graft_absent (par new : Address) (t : Shape) :
  par ∉ addrs t -> graft par new t = t.
Proof.
  induction t as [a kids IH] using Shape_nested_ind. intros Hpar.
  rewrite graft_Node. rewrite addrs_Node in Hpar.
  apply not_elem_of_cons in Hpar as [Hne Hpar].
  destruct (decide (a = par)) as [->|_]; [done|]. rewrite app_nil_r. f_equal.
  induction kids as [|k ks IHks]; [reflexivity|]. simpl in *.
  apply not_elem_of_app in Hpar as [Hk Hks].
  rewrite (Forall_inv IH Hk). by rewrite (IHks (Forall_inv_tail IH) Hks).
Qed.

Lemma graft_list_absent (par new : Address) (ks : list Shape) :
  par ∉ addrs_list ks -> graft_list par new ks = ks.
Proof.
  induction ks as [|k ks IH]; intros Hpar; [reflexivity|]. simpl in *.
  apply not_elem_of_app in Hpar as [Hk Hks]. by rewrite (graft_absent par new k Hk), IH.
Qed.

(** The addresses of the grafted shape: the old ones, and the new leaf if
    the parent is in the shape. *)
Lemma addrs_graft (par new : Address) (t : Shape) (x : Address) :
  x ∈ addrs (graft par new t) -> x ∈ addrs t \/ (x = new /\ par ∈ addrs t).
Proof.
  revert x. induction t as [a kids IH] using Shape_nested_ind. intros x.
  rewrite graft_Node, !addrs_Node, addrs_list_app. intros Hx.
  apply elem_of_cons in Hx as [->|Hx]; [left; by left|].
  apply elem_of_app in Hx as [Hx|Hx].
  - assert (Hlist : x ∈ addrs_list kids \/ (x = new /\ par ∈ addrs_list kids)).
    { clear -IH Hx. induction kids as [|k ks IHks]; [by apply elem_of_nil in Hx|].
      simpl in Hx. apply elem_of_app in Hx as [Hx|Hx].
      - destruct (Forall_inv IH x Hx) as [H|[-> H]].
        + left. simpl. apply elem_of_app. by left.
        + right. split; [reflexivity|]. simpl. apply elem_of_app. by left.
      - destruct (IHks (Forall_inv_tail IH) Hx) as [H|[-> H]].
        + left. simpl. apply elem_of_app. by right.
        + right. split; [reflexivity|]. simpl. apply elem_of_app. by right. }
    destruct Hlist as [H|[-> H]]; [left; by right | right; split; [reflexivity | by right]].
  - destruct (decide (a = par)) as [->|_]; [|by apply elem_of_nil in Hx].
    simpl in Hx. apply list_elem_of_singleton in Hx as ->. right. split; [reflexivity | by left].
Qed.

Lemma addrs_graft_list (par new : Address) (ks : list Shape) (x : Address) :
  x ∈ addrs_list (graft_list par new ks) ->
  x ∈ addrs_list ks \/ (x = new /\ par ∈ addrs_list ks).
Proof.
  induction ks as [|k ks IH]; intros Hx; [by apply elem_of_nil in Hx|].
  simpl in Hx. apply elem_of_app in Hx as [Hx|Hx].
  - destruct (addrs_graft par new k x Hx) as [H|[-> H]].
    + left. simpl. apply elem_of_app. by left.
    + right. split; [reflexivity|]. simpl. apply elem_of_app. by left.
  - destruct (IH Hx) as [H|[-> H]].
    + left. simpl. apply elem_of_app. by right.
    + right. split; [reflexivity|]. simpl. apply elem_of_app. by right.
Qed.

Lemma NoDup_graft_list (par new : Address) (ks : list Shape) :
  Forall (fun k => NoDup (addrs k) -> new ∉ addrs k -> NoDup (addrs (graft par new k))) ks ->
  NoDup (addrs_list ks) -> new ∉ addrs_list ks ->
  NoDup (addrs_list (graft_list par new ks)).
Proof.
  induction ks as [|k ks IH]; intros Hall Hnd Hnew; [constructor|].
  simpl in *. apply NoDup_app in Hnd as (Hndk & Hdisj & Hndks).
  apply not_elem_of_app in Hnew as [Hnk Hnks].
  apply NoDup_app. split; [by apply (Forall_inv Hall)|]. split.
  - intros x Hx Hx'.
    destruct (addrs_graft par new k x Hx) as [H1|[-> H1]];
      destruct (addrs_graft_list par new ks _ Hx') as [H2|[E2 H2]].
    + by apply (Hdisj x).
    + subst x. by apply Hnk.
    + by apply Hnks.
    + by apply (Hdisj par).
  - by apply IH; [apply (Forall_inv_tail Hall)| |].
Qed.

Lemma NoDup_graft (par new : Address) (t : Shape) :
  NoDup (addrs t) -> new ∉ addrs t -> NoDup (addrs (graft par new t)).
Proof.
  induction t as [a kids IH] using Shape_nested_ind. intros Hnd Hnew.
  rewrite graft_Node, addrs_Node in *. rewrite addrs_list_app.
  apply NoDup_cons in Hnd as [Ha Hnd]. apply not_elem_of_cons in Hnew as [Hna Hnew].
  destruct (decide (a = par)) as [->|Hne].
  - rewrite (graft_list_absent par new kids Ha).
    change (addrs_list [Node new []]) with [new].
    apply NoDup_cons. split.
    + intros Hin. apply elem_of_app in Hin as [Hin|Hin]; [by apply Ha|].
      apply list_elem_of_singleton in Hin. by apply Hna.
    + apply NoDup_app. split; [exact Hnd|]. split; [|apply NoDup_singleton].
      intros x Hx Hx'. apply list_elem_of_singleton in Hx' as ->. by apply Hnew.
  - change (addrs_list []) with (@nil Address). rewrite app_nil_r.
    apply NoDup_cons. split.
    + intros Hin. destruct (addrs_graft_list par new kids a Hin) as [H|[E _]];
        [by apply Ha | by apply Hna].
    + by apply NoDup_graft_list.
Qed.

Lemma graft_adds (par new : Address) (t : Shape) :
  par ∈ addrs t -> new ∈ addrs (graft par new t).
Proof.
  induction t as [a kids IH] using Shape_nested_ind. intros Hpar.
  rewrite graft_Node, addrs_Node in *. rewrite addrs_list_app. right.
  apply elem_of_app. apply elem_of_cons in Hpar as [<-|Hpar].
  - right. destruct (decide (par = par)) as [_|Hne]; [|done].
    change (addrs_list [Node new []]) with [new]. by left.
  - left. induction kids as [|k ks IHks]; [by apply elem_of_nil in Hpar|].
    simpl in *. apply elem_of_app. apply elem_of_app in Hpar as [Hpar|Hpar].
    + left. by apply (Forall_inv IH).
    + right. by apply IHks; [apply (Forall_inv_tail IH)|].
Qed.

Lemma rep_live (h : gmap Address FileCache) (t : Shape) :
  forall par0 x, rep h par0 t -> x ∈ addrs t -> is_Some (h !! x).
Proof.
  induction t as [a kids IH] using Shape_nested_ind. intros par0 x Hrep Hx.
  inversion Hrep as [par1 a0 kids0 e He Hpe Hch Hkids]; subst.
  rewrite addrs_Node in Hx. apply elem_of_cons in Hx as [->|Hx]; [by exists e|].
  clear He Hch Hrep. induction kids as [|k ks IHks]; [by apply elem_of_nil in Hx|].
  simpl in Hx. apply elem_of_app in Hx as [Hx|Hx].
  - by apply (Forall_inv IH (Some a) x (Forall_inv Hkids)).
  - exact (IHks (Forall_inv_tail IH) Hx (Forall_inv_tail Hkids)).
Qed.

(** The heap after an insertion under [par] holds the grafted shape. *)
Lemma rep_graft (h : gmap Address FileCache) (par new : Address) (pe leaf : FileCache) :
  h !! par = Some pe -> par <> new ->
  parent leaf = Some par -> childs leaf = [] ->
  forall t par0,
    rep h par0 t -> new ∉ addrs t ->
    rep (<[par := set_childs (childs pe ++ [new]) pe]> (<[new := leaf]> h)) par0
        (graft par new t).
Proof.
  intros Hpe Hpn Hlp Hlc.
  induction t as [a kids IH] using Shape_nested_ind. intros par0 Hrep Hnew.
  inversion Hrep as [par1 a0 kids0 e He Hpar Hch Hkids]; subst.
  rewrite graft_Node. rewrite addrs_Node in Hnew.
  apply not_elem_of_cons in Hnew as [Hna Hnew].
  assert (Hkids' : Forall (rep (<[par := set_childs (childs pe ++ [new]) pe]>
                                  (<[new := leaf]> h)) (Some a))
                          (graft_list par new kids)).
  { clear He Hch Hrep. induction kids as [|k ks IHks]; [constructor|].
    simpl in Hnew. apply not_elem_of_app in Hnew as [Hnk Hnks]. simpl. constructor.
    - by apply (Forall_inv IH (Some a) (Forall_inv Hkids)).
    - exact (IHks (Forall_inv_tail IH) Hnks (Forall_inv_tail Hkids)). }
  destruct (decide (a = par)) as [->|Hne].
  - assert (pe = e) by congruence. subst pe.
    apply (rep_node _ _ _ _ (set_childs (childs e ++ [new]) e)).
    + apply lookup_insert_eq.
    + reflexivity.
    + rewrite map_app, map_top_graft_list. simpl. by rewrite Hch.
    + apply Forall_app. split; [exact Hkids'|]. constructor; [|constructor].
      apply (rep_node _ _ _ [] leaf); [|exact Hlp|exact Hlc|constructor].
      rewrite lookup_insert_ne by exact Hpn. apply lookup_insert_eq.
  - rewrite app_nil_r. apply (rep_node _ _ _ _ e).
    + rewrite lookup_insert_ne by (by intros ->).
      rewrite lookup_insert_ne by (by intros ->). exact He.
    + reflexivity.
    + by rewrite map_top_graft_list.
    + exact Hkids'.
Qed.

(** X12.  Insertion keeps the cache a tree.  When the heap holds a tree
    that contains the parent entry the path selects, and the allocation
    address is unused, [insertFileCache] leaves the same tree with the new
    entry as one more leaf, the last child of that parent: all other entries
    keep their children in their order, and no address occurs twice. *)
Theorem insert_keeps_tree (P : Platform) (fs : FileSystem) (f : File.t)
    (formatted : string) (t : Shape) (par0 : option Address) :
  rep (memory fs) par0 t ->
  NoDup (addrs t) ->
  parent_of fs (parse P (str_take (PATHLEN - 1) formatted)) ∈ addrs t ->
  brk fs ∉ addrs t ->
  exists fs',
    insertFileCache P fs f formatted = Some (fs', brk fs) /\
    rep (memory fs') par0
        (graft (parent_of fs (parse P (str_take (PATHLEN - 1) formatted))) (brk fs) t) /\
    NoDup (addrs (graft (parent_of fs (parse P (str_take (PATHLEN - 1) formatted)))
                        (brk fs) t)) /\
    brk fs ∈ addrs (graft (parent_of fs (parse P (str_take (PATHLEN - 1) formatted)))
                          (brk fs) t).
Proof.
  intros Hrep Hnd Hpar Hnew. set (p := parse P (str_take (PATHLEN - 1) formatted)) in *.
  destruct (rep_live (memory fs) t par0 (parent_of fs p) Hrep Hpar) as [pe Hpe].
  assert (Hpn : parent_of fs p <> brk fs) by (intros Heq; apply Hnew; by rewrite <- Heq).
  exists (mkFS (ipcHandlers fs) (root fs)
               (<[FileSystemPath.full p := brk fs]> (cache fs))
               (<[parent_of fs p := set_childs (childs pe ++ [brk fs]) pe]>
                  (<[brk fs := mkFileCache (Some f) (Some p) (Some (parent_of fs p)) [] 0]>
                     (memory fs)))
               (brk fs + 1)%N (looked_up fs) (released fs) (copied_out fs)).
  split; [|split; [|split]].
  - unfold insertFileCache. fold p. unfold attach, alloc, update. simpl.
    rewrite lookup_insert_eq. simpl. rewrite insert_insert_eq.
    rewrite lookup_insert_ne by (by intros ?%symmetry). rewrite Hpe. reflexivity.
  - simpl. by apply rep_graft.
  - by apply NoDup_graft.
  - by apply graft_adds.
Qed.

Lemma insert_keeps_tree_witness :
  rep (memory (FileSystem_new sample)) None (Node 1%N []) /\
  exists fs1 fs2,
    insertFileCache sample (FileSystem_new sample) (bytes_file []) "/a" = Some (fs1, 2%N) /\
    rep (memory fs1) None (Node 1%N [Node 2%N []]) /\
    insertFileCache sample fs1 (bytes_file []) "/a/b" = Some (fs2, 3%N) /\
    rep (memory fs2) None (Node 1%N [Node 2%N [Node 3%N []]]) /\
    NoDup (addrs (Node 1%N [Node 2%N [Node 3%N []]])).
Proof.
  assert (Hrep0 : rep (memory (FileSystem_new sample)) None (Node 1%N [])).
  { apply (rep_node _ None 1%N [] (mkFileCache None None None [] 1)); [|done|done|constructor].
    by vm_compute. }
  split; [exact Hrep0|].
  assert (Hnd0 : NoDup (addrs (Node 1%N []))) by compute_done.
  destruct (insert_keeps_tree sample (FileSystem_new sample) (bytes_file []) "/a"
              (Node 1%N []) None Hrep0 Hnd0) as (fs1 & Hins1 & Hrep1 & Hnd1 & _);
    [compute_done | compute_done |].
  change (rep (memory fs1) None (Node 1%N [Node 2%N []])) in Hrep1.
  change (NoDup (addrs (Node 1%N [Node 2%N []]))) in Hnd1.
  assert (Hbrk : brk fs1 = 3%N /\
                 parent_of fs1 (parse sample (str_take (PATHLEN - 1) "/a/b")) = 2%N).
  { unfold insertFileCache in Hins1. apply attach_Some in Hins1 as (_ & pe & _ & ->).
    split; [reflexivity | by vm_compute]. }
  destruct Hbrk as [Hbrk Hpar].
  destruct (insert_keeps_tree sample fs1 (bytes_file []) "/a/b"
              (Node 1%N [Node 2%N []]) None Hrep1 Hnd1) as (fs2 & Hins2 & Hrep2 & Hnd2 & _).
  { rewrite Hpar. compute_done. }
  { rewrite Hbrk. compute_done. }
  rewrite Hbrk in Hins2. rewrite Hbrk, Hpar in Hrep2, Hnd2.
  exists fs1, fs2. split; [exact Hins1|]. split; [exact Hrep1|].
  split; [exact Hins2|]. split; [exact Hrep2 | exact Hnd2].
Defined.

(** ** Handlers and the tree *)

(** A tree is represented in every heap whose entries have the parents and
    children they have in the given one. *)
Lemma rep_same_links (h h' : gmap Address FileCache) (t : Shape) :
  (forall x e, h !! x = Some e ->
     exists e', h' !! x = Some e' /\ parent e' = parent e /\ childs e' = childs e) ->
  forall par, rep h par t -> rep h' par t.
Proof.
  intros Hlinks. induction t as [a kids IH] using Shape_nested_ind. intros par Hrep.
  inversion Hrep as [par0 a0 kids0 e He Hpar Hch Hkids]; subst.
  destruct (Hlinks a e He) as (e' & He' & Hp' & Hc').
  apply (rep_node h' (parent e) a kids e' He' Hp'); [by rewrite Hc'|].
  clear He Hch Hrep He' Hc'. induction kids as [|k ks IHks]; constructor.
  - apply (Forall_inv IH). apply (Forall_inv Hkids).
  - exact (IHks (Forall_inv_tail IH) (Forall_inv_tail Hkids)).
Qed.

Lemma update_count_links (a : Address) (g : Z -> Z) (fs fs' : FileSystem) :
  update a (fun e => set_count (g (count e)) e) fs = Some fs' ->
  forall x e, memory fs !! x = Some e ->
    exists e', memory fs' !! x = Some e' /\ parent e' = parent e /\ childs e' = childs e.
Proof.
  intros Hu x e He. apply update_Some in Hu as (ea & Hea & ->). simpl.
  destruct (decide (a = x)) as [->|Hne].
  - rewrite lookup_insert_eq. assert (ea = e) by congruence. subst ea. by eexists.
  - rewrite lookup_insert_ne by exact Hne. by exists e.
Qed.

(** X13.  Open, read and close leave the tree as it is.  A read, a close,
    and an open that allocates no entry (a hit, an unknown path or a failed
    copy) keep every parent pointer and every children list: a tree-shaped
    part of the heap has the same shape afterwards. *)
Theorem handlers_keep_tree (P : Platform) (fs fs' : FileSystem) (q : Request)
    (par : option Address) (t : Shape) :
  step P fs q fs' ->
  (forall start, q <> Evict start) ->
  brk fs' = brk fs ->
  rep (memory fs) par t ->
  rep (memory fs') par t.
Proof.
  intros Hstep Hq Hbrk. apply rep_same_links.
  destruct Hstep as [fs msg reply fs' reply' Hrun
    | fs msg reply fs' reply' Hrun | fs msg reply fs' reply' Hrun | fs start fuel fs' Hrun].
  - destruct (VMCopy_Read P (from msg) (buffer msg) PATHLEN) as [copied data] eqn:Hcopy.
    destruct (Z_le_gt_dec copied 0) as [Hle|Hgt].
    + rewrite (openFileHandler_copy_failed P fs msg reply copied data Hcopy Hle) in Hrun.
      injection Hrun as <- <-. intros x e He. by exists e.
    + rewrite (openFileHandler_copied P fs msg reply copied data Hcopy) in Hrun by lia.
      cbv zeta in Hrun. set (p := parse P (parse_input P msg data)) in *.
      unfold findFileCache, cacheHit in Hrun.
      destruct (cache fs !! FileSystemPath.full p) as [entry|] eqn:Hix; simpl in Hrun.
      * destruct (update entry _ fs) as [fs2|] eqn:Hu; simpl in Hrun; [|discriminate].
        injection Hrun as <- <-.
        apply (update_count_links entry (Size_incr P) fs fs2 Hu).
      * unfold lookupFile in Hrun. destruct (loadEntry P p) as [f|]; simpl in Hrun.
        -- destruct (attach (log_lookup p fs) f p) as [[fs1 entry]|] eqn:Hatt;
             simpl in Hrun; [|discriminate].
           destruct (update entry _ fs1) as [fs2|] eqn:Hu; simpl in Hrun; [|discriminate].
           injection Hrun as <- <-. exfalso.
           apply attach_Some in Hatt as (_ & pe & _ & ->).
           apply update_Some in Hu as (e & _ & ->). simpl in Hbrk. lia.
        -- injection Hrun as <- <-. intros x e He. by exists e.
  - unfold readFileHandler in Hrun.
    destruct (memory fs !! ident msg) as [fc|]; simpl in Hrun; [|discriminate].
    destruct (file fc) as [f|]; simpl in Hrun; [|discriminate].
    destruct (File.read f _ _) as [res buf].
    destruct (res >? 0); injection Hrun as <- <-; intros x e He; by exists e.
  - unfold closeFileHandler in Hrun.
    destruct (update (ident msg) _ fs) as [fs1|] eqn:Hu; simpl in Hrun; [|discriminate].
    injection Hrun as <- <-. apply (update_count_links (ident msg) (Size_decr P) fs fs1 Hu).
  - by destruct (Hq start).
Qed.

Lemma handlers_keep_tree_witness :
  exists fs fs',
    cached_a_b = Some fs /\
    rep (memory fs) None (Node 1%N [Node 2%N [Node 3%N []]]) /\
    step sample fs (Open (open_msg 200)) fs' /\
    count_at fs' 3%N = Some 1 /\
    rep (memory fs') None (Node 1%N [Node 2%N [Node 3%N []]]).
Proof.
  assert (H : exists fs fs' e1 e2 e3,
             cached_a_b = Some fs /\
             exec sample 0 fs (Open (open_msg 200)) = Some fs' /\
             brk fs' = brk fs /\ count_at fs' 3%N = Some 1 /\
             memory fs !! 1%N = Some e1 /\ parent e1 = None /\ childs e1 = [2%N] /\
             memory fs !! 2%N = Some e2 /\ parent e2 = Some 1%N /\ childs e2 = [3%N] /\
             memory fs !! 3%N = Some e3 /\ parent e3 = Some 2%N /\ childs e3 = []).
  { do 5 eexists. split; [vm_compute; reflexivity|]. split; [vm_compute; reflexivity|].
    split; [reflexivity|]. split; [by vm_compute|].
    split; [vm_compute; reflexivity|]. do 2 (split; [reflexivity|]).
    split; [vm_compute; reflexivity|]. do 2 (split; [reflexivity|]).
    split; [vm_compute; reflexivity|]. by split. }
  destruct H as (fs & fs' & e1 & e2 & e3 & Hfs & Hrun & Hbrk & Hc & H1 & P1 & C1 &
                 H2 & P2 & C2 & H3 & P3 & C3).
  apply exec_step in Hrun.
  assert (Hrep : rep (memory fs) None (Node 1%N [Node 2%N [Node 3%N []]])).
  { apply (rep_node (memory fs) None 1%N [Node 2%N [Node 3%N []]] e1 H1 P1 C1).
    constructor; [|constructor].
    apply (rep_node (memory fs) (Some 1%N) 2%N [Node 3%N []] e2 H2 P2 C2).
    constructor; [|constructor].
    apply (rep_node (memory fs) (Some 2%N) 3%N [] e3 H3 P3 C3). constructor. }
  exists fs, fs'. split; [exact Hfs|]. split; [exact Hrep|]. split; [exact Hrun|].
  split; [exact Hc|].
  apply (handlers_keep_tree sample fs fs' (Open (open_msg 200)) None _ Hrun);
    [discriminate | exact Hbrk | exact Hrep].
Defined.
